(** * Agentic RAG bot: the hybrid retrieval orchestration core

    A shallow embedding of [RAG_BOT_Fin.py]: the query classifier
    ([SmartSearchDecider]), the token-budgeted context assembler
    ([RAGRetriever.get_context]), the context combiner, the bounded
    conversation memory and the per-turn orchestrator
    ([ConversationalRealEstateSystem.chat]).

    Python [str] values are modelled as [string]s whose characters are the
    code points below 256; [lower] and [strip] follow Python on that range.
    Python [float]s are IEEE binary64 numbers, modelled by [PrimFloat.float]. *)

From Stdlib Require Import ZArith Lia Bool List Ascii String Floats.
From stdpp Require Import base option list strings gmap.
Import ListNotations.

Local Open Scope string_scope.

(** ** Python string operations *)

Module PyStr.

Definition nl : string := String "010"%char EmptyString.

(** [c.lower()] for a code point below 256: A-Z, and the Latin-1 capitals
    192-222 other than the multiplication sign 215, move up by 32. *)
Definition lower_char (c : ascii) : ascii :=
  let n := nat_of_ascii c in
  if (((65 <=? n) && (n <=? 90))
      || ((192 <=? n) && (n <=? 222) && negb (n =? 215)))%nat
  then ascii_of_nat (n + 32)
  else c.

Fixpoint lower (s : string) : string :=
  match s with
  | EmptyString => EmptyString
  | String c s' => String (lower_char c) (lower s')
  end.

(** [c.isspace()] below 256: tab to carriage return, the four separators
    28-31, space, NEL (133) and the no-break space (160). *)
Definition isspace (c : ascii) : bool :=
  let n := nat_of_ascii c in
  (((9 <=? n) && (n <=? 13)) || ((28 <=? n) && (n <=? 32))
   || (n =? 133) || (n =? 160))%nat.

(** No character of the text is white space. *)
Fixpoint no_space (s : string) : bool :=
  match s with
  | EmptyString => true
  | String c s' => negb (isspace c) && no_space s'
  end.

Fixpoint lstrip (s : string) : string :=
  match s with
  | EmptyString => EmptyString
  | String c s' => if isspace c then lstrip s' else s
  end.

(** [rstrip] drops the trailing run of white space: a character is kept
    when it is not white space or when something is kept after it. *)
Fixpoint rstrip (s : string) : string :=
  match s with
  | EmptyString => EmptyString
  | String c s' =>
      match rstrip s' with
      | EmptyString => if isspace c then EmptyString else String c EmptyString
      | r => String c r
      end
  end.

Definition strip (s : string) : string := rstrip (lstrip s).

(** [needle in hay] *)
Fixpoint contains (needle hay : string) : bool :=
  String.prefix needle hay
  || match hay with
     | EmptyString => false
     | String _ hay' => contains needle hay'
     end.

(** [sep.join(parts)] *)
Fixpoint join (sep : string) (parts : list string) : string :=
  match parts with
  | [] => EmptyString
  | [p] => p
  | p :: rest => p ++ sep ++ join sep rest
  end.

(** [s[:n]] for [n >= 0] *)
Definition take (n : nat) (s : string) : string := String.substring 0 n s.

(** truth value of a string: [not s] holds for the empty string only *)
Definition nonempty (s : string) : bool :=
  match s with EmptyString => false | _ => true end.

(** [any(k in s for k in keywords)] *)
Definition any_in (keywords : list string) (s : string) : bool :=
  existsb (fun k => contains k s) keywords.

End PyStr.

Import PyStr.

(** ** Python values and JSON documents *)

(** The values a context map can hold.  Dictionaries are keyed by strings
    (the code's [Dict[str, Any]]) and keep insertion order, which is the
    order [json.dump] writes them in.  [PyOpaque] stands for every object
    [json] has no encoding for (a set, bytes, a class instance, a container
    that holds itself); it only carries its truth value. *)
#[warnings="-register-all"]
Inductive pyval : Type :=
| PyNone
| PyBool (b : bool)
| PyInt (n : Z)
| PyFloat (x : float)
| PyStr (s : string)
| PyList (items : list pyval)
| PyTuple (items : list pyval)
| PyDict (entries : list (string * pyval))
| PyOpaque (truth : bool).

Abbreviation pydict := (list (string * pyval)).

(** A JSON document, as [json.dump] produces and [json.load] reads it. *)
#[warnings="-register-all"]
Inductive json : Type :=
| JNull
| JBool (b : bool)
| JInt (n : Z)
| JFloat (x : float)
| JStr (s : string)
| JArr (items : list json)
| JObj (members : list (string * json)).

(** [d.get(key)] *)
Fixpoint dict_get (d : pydict) (key : string) : option pyval :=
  match d with
  | [] => None
  | (k, v) :: d' => if String.eqb k key then Some v else dict_get d' key
  end.

(** [d[key] = v]: an existing key keeps its place *)
Fixpoint dict_set (d : pydict) (key : string) (v : pyval) : pydict :=
  match d with
  | [] => [(key, v)]
  | (k, v0) :: d' =>
      if String.eqb k key then (k, v) :: d' else (k, v0) :: dict_set d' key v
  end.

(** [d.update(other)] *)
Definition dict_update (d other : pydict) : pydict :=
  fold_left (fun acc kv => dict_set acc (fst kv) (snd kv)) other d.

(** [bool(v)] *)
Definition truthy (v : pyval) : bool :=
  match v with
  | PyNone => false
  | PyBool b => b
  | PyInt n => negb (n =? 0)%Z
  | PyFloat x => negb (PrimFloat.eqb x 0%float)
  | PyStr s => nonempty s
  | PyList l | PyTuple l => match l with [] => false | _ => true end
  | PyDict d => match d with [] => false | _ => true end
  | PyOpaque b => b
  end.

(** The number of decimal digits of an integer, sign apart. *)
Definition decimal_digits (n : Z) : nat :=
  match n with
  | Z0 => 1
  | Zpos p | Zneg p => Decimal.nb_digits (Pos.to_uint p)
  end.

(** Turning an integer into text fails when it has more digits than the
    interpreter's limit ([sys.get_int_max_str_digits()]: 4300 unless changed,
    0 for no limit). *)
Definition too_many_digits (max_str_digits : nat) (n : Z) : bool :=
  ((0 <? max_str_digits) && (max_str_digits <? decimal_digits n))%nat.

(** The [json] encoder.  Its conversion table: lists and tuples both become
    arrays, and a value without an encoding makes the whole dump fail.  Its
    limits: an integer of too many digits fails, and so does nesting deeper
    than [depth], the number of container levels the interpreter's recursion
    limit leaves room for.  [None] stands for the exception ([TypeError],
    [ValueError], [RecursionError]). *)
Fixpoint json_encode (max_str_digits depth : nat) (v : pyval) {struct v}
  : option json :=
  match v with
  | PyNone => Some JNull
  | PyBool b => Some (JBool b)
  | PyInt n => if too_many_digits max_str_digits n then None else Some (JInt n)
  | PyFloat x => Some (JFloat x)
  | PyStr s => Some (JStr s)
  | PyList l | PyTuple l =>
      match depth with
      | O => None
      | S depth' =>
          option_map JArr
            ((fix encode_items (l : list pyval) : option (list json) :=
                match l with
                | [] => Some []
                | x :: l' =>
                    match json_encode max_str_digits depth' x, encode_items l' with
                    | Some j, Some js => Some (j :: js)
                    | _, _ => None
                    end
                end) l)
      end
  | PyDict d =>
      match depth with
      | O => None
      | S depth' =>
          option_map JObj
            ((fix encode_entries (d : pydict) : option (list (string * json)) :=
                match d with
                | [] => Some []
                | (k, x) :: d' =>
                    match json_encode max_str_digits depth' x, encode_entries d' with
                    | Some j, Some js => Some ((k, j) :: js)
                    | _, _ => None
                    end
                end) d)
      end
  | PyOpaque _ => None
  end.

(** What [json.load] builds from a document: arrays become lists.  A float
    is written with [repr] and read back as the same number; a NaN is
    written as [NaN] and read back as a NaN. *)
Fixpoint json_decode (j : json) : pyval :=
  match j with
  | JNull => PyNone
  | JBool b => PyBool b
  | JInt n => PyInt n
  | JFloat x => PyFloat x
  | JStr s => PyStr s
  | JArr l => PyList (map json_decode l)
  | JObj m => PyDict (map (fun kv => (fst kv, json_decode (snd kv))) m)
  end.

(** Values that contain neither a tuple nor an object without encoding. *)
Fixpoint json_native (v : pyval) : bool :=
  match v with
  | PyList l => forallb json_native l
  | PyDict d => forallb (fun kv => json_native (snd kv)) d
  | PyTuple _ | PyOpaque _ => false
  | _ => true
  end.

Definition json_native_dict (d : pydict) : bool :=
  forallb (fun kv => json_native (snd kv)) d.

(** ** The outside world, exceptions and effects *)

(** Exceptions carry the text [str(e)] gives; [requests] failures are kept
    apart because [SerperSearchTool.search] catches only those. *)
Inductive exn : Type :=
| RequestException (msg : string)
| Exception (msg : string).

Definition exn_str (e : exn) : string :=
  match e with RequestException m | Exception m => m end.

(** Everything the program does to the outside, in order. *)
Inductive Event : Type :=
| EvSimilaritySearch (query : string) (k : nat)
| EvPost (url : string) (q : string) (num : nat) (location : option pyval)
| EvGenerate (prompt : string)
| EvPrint (text : string)
| EvOpenWrite (path : string).

(** What a file holds: the document of a completed [json.dump], or the
    remains of one that was opened (so truncated) and then interrupted. *)
Inductive file_content : Type :=
| Written (j : json)
| Interrupted.

Record World : Type := mkWorld {
  files : gmap string file_content;
  ticks : nat;
  log : list Event
}.

(** A stored chunk, as the vector store hands it back. *)
Module Doc.
Record t : Type := mk {
  page_content : string;
  metadata : gmap string string
}.
End Doc.

(** The collaborators.  Each one answers from the history of events so far
    and its arguments, with a value or an exception. *)
Record Chroma : Type := {
  similarity_search_with_score :
    list Event -> string -> nat -> exn + list (Doc.t * float)
}.

Record GenerativeModel : Type := {
  generate_content : list Event -> string -> exn + string
}.

Record Platform : Type := {
  (** [requests.post(url, headers, json=payload)], [raise_for_status()],
      [.json()]: the JSON value of the response, whatever it is *)
  requests_post :
    list Event -> string -> string -> string -> nat -> option pyval ->
    exn + json;
  (** the successive readings of [time.time()] *)
  time_time : nat -> float;
  (** whether [open(path, 'w')] succeeds *)
  open_write : list Event -> string -> bool;
  (** the text of a JSON document *)
  json_text : json -> string;
  (** [sys.get_int_max_str_digits()] *)
  int_max_str_digits : nat;
  (** the container levels the recursion limit leaves room for at this
      point, beyond those of the snapshot itself *)
  json_room : list Event -> nat;
  (** [str(v)] for a JSON value that is not a string, at this point: its
      text, or the exception it raises ([ValueError] for an integer of too
      many digits, [RecursionError] for nesting too deep) *)
  py_str : list Event -> json -> exn + string
}.

(** The snapshot is a dictionary holding a list of dictionaries: three
    levels, which the interpreter always has room for. *)
Definition snapshot_levels : nat := 3.

Definition json_depth (P : Platform) (h : list Event) : nat :=
  snapshot_levels + json_room P h.

(** What [json.dump] and [json.dumps] make of a value at this point. *)
Definition dump_encode (P : Platform) (h : list Event) (v : pyval) : option json :=
  json_encode (int_max_str_digits P) (json_depth P h) v.

(** Computations: state passing with exceptions. *)
Definition M (S A : Type) : Type := S -> (exn + A) * S.

Definition ret {S A} (a : A) : M S A := fun s => (inr a, s).

Definition raise {S A} (e : exn) : M S A := fun s => (inl e, s).

Definition bind {S A B} (m : M S A) (f : A -> M S B) : M S B :=
  fun s => match m s with
           | (inr a, s') => f a s'
           | (inl e, s') => (inl e, s')
           end.

(** [try: m  except Exception as e: h e] *)
Definition try_except {S A} (m : M S A) (h : exn -> M S A) : M S A :=
  fun s => match m s with
           | (inr a, s') => (inr a, s')
           | (inl e, s') => h e s'
           end.

Definition get {S} : M S S := fun s => (inr s, s).

Definition modify {S} (f : S -> S) : M S unit := fun s => (inr tt, f s).

Definition lift {S A} (r : exn + A) : M S A := fun s => (r, s).

Declare Scope monad_scope.
Delimit Scope monad_scope with monad.
Notation "x <- m ;; k" := (bind m (fun x => k))
  (at level 100, m at next level, right associativity) : monad_scope.
Notation "m ;;; k" := (bind m (fun _ => k))
  (at level 100, right associativity) : monad_scope.
Local Open Scope monad_scope.

Definition emit (ev : Event) : M World unit :=
  modify (fun w => mkWorld (files w) (ticks w) (log w ++ [ev])).

Definition print (text : string) : M World unit := emit (EvPrint text).

Definition history : M World (list Event) := fun w => (inr (log w), w).

(** ** RAGRetriever *)

Record RAGRetriever : Type := {
  vectorstore : option Chroma
}.

(** One formatted result of [retrieve]. *)
Record Hit : Type := mkHit {
  content : string;
  metadata : gmap string string;
  relevance_score : float
}.

(** The loop of [retrieve]: [1 / (1 + score)] raises [ZeroDivisionError]
    when the denominator is zero. *)
Fixpoint format_results (results : list (Doc.t * float)) : exn + list Hit :=
  match results with
  | [] => inr []
  | (doc, score) :: rest =>
      let denom := (1 + score)%float in
      if PrimFloat.eqb denom 0%float
      then inl (Exception "float division by zero")
      else match format_results rest with
           | inl e => inl e
           | inr formatted =>
               inr (mkHit (Doc.page_content doc) (Doc.metadata doc)
                          (1 / denom)%float :: formatted)
           end
  end.

Definition retrieve (self : RAGRetriever) (query : string) (k : nat)
  : M World (list Hit) :=
  match vectorstore self with
  | None => ret []
  | Some store =>
      try_except
        (h <- history ;;
         emit (EvSimilaritySearch query k) ;;;
         results <- lift (similarity_search_with_score store h query k) ;;
         lift (format_results results))
        (fun e => print ("Retrieval error: " ++ exn_str e) ;;; ret [])
  end.

(** [len(content) // 4] *)
Definition content_tokens (c : string) : Z := Z.of_nat (String.length c) / 4.

Definition tagged (result : Hit) : string :=
  "[From " ++ default "Unknown" (metadata result !! "source") ++ "]" ++ nl
  ++ content result.

(** The loop of [get_context]; it stops at the first result that would take
    the running count over [max_tokens]. *)
Fixpoint get_context_loop (results : list Hit) (max_tokens token_count : Z)
    (context_parts : list string) : list string :=
  match results with
  | [] => context_parts
  | result :: rest =>
      if (token_count + content_tokens (content result) >? max_tokens)%Z
      then context_parts
      else get_context_loop rest max_tokens
             (token_count + content_tokens (content result))
             (context_parts ++ [tagged result])
  end.

Definition separator : string := nl ++ nl ++ "---" ++ nl ++ nl.

Definition get_context (self : RAGRetriever) (query : string) (max_tokens : Z)
  : M World string :=
  results <- retrieve self query 5 ;;
  match results with
  | [] => ret ""
  | _ => ret (join separator (get_context_loop results max_tokens 0 []))
  end.

(** The token count [get_context] has run up over the results it kept. *)
Definition sum_tokens (results : list Hit) : Z :=
  fold_right (fun result acc => (content_tokens (content result) + acc)%Z) 0%Z results.

(** [len(text) // 4], the approximate token count of a text *)
Definition approx_tokens (text : string) : Z := Z.of_nat (String.length text) / 4.

(** ** SmartSearchDecider *)

Definition stable_topics : list (string * list string) :=
  [ ("process", ["buying process"; "selling process"; "closing process"; "mortgage process"]);
    ("definitions", ["what is"; "explain"; "define"; "how does"; "how do"]);
    ("historical", ["history"; "established"; "founded"; "originally"]);
    ("features", ["amenities"; "characteristics"; "features"; "lifestyle"]);
    ("geography", ["location"; "boundaries"; "distance"; "area"]) ].

Definition dynamic_topics : list (string * list string) :=
  [ ("market", ["price"; "rates"; "market"; "trends"; "inventory"; "sales"]);
    ("temporal", ["current"; "latest"; "recent"; "today"; "now"; "2024"; "2025"]);
    ("statistics", ["average"; "median"; "statistics"; "data"; "numbers"]);
    ("availability", ["available"; "for sale"; "listings"; "on market"]);
    ("news", ["news"; "announced"; "update"; "happening"; "events"]) ].

Definition neighborhoods : list string :=
  ["coral gables"; "brickell"; "wynwood"; "aventura"; "coconut grove"; "south beach"].

Definition comparison_keywords : list string :=
  ["compare"; "versus"; "vs"; "better"; "difference"].

Definition investment_keywords : list string :=
  ["roi"; "invest"; "rental"; "return"; "yield"].

Definition comprehensive_keywords : list string :=
  ["tell me about"; "overview"; "guide"; "everything"].

Definition hybrid_topics : list (string * list string) :=
  [ ("neighborhoods", neighborhoods);
    ("comparison", comparison_keywords);
    ("investment", investment_keywords);
    ("comprehensive", comprehensive_keywords) ].

Record Decision : Type := mkDecision {
  use_rag : bool;
  use_search : bool;
  rag_query : string;
  search_query : string;
  reasoning : string
}.

Definition set_use_rag (d : Decision) : Decision :=
  mkDecision true (use_search d) (rag_query d) (search_query d) (reasoning d).

Definition set_use_search (d : Decision) : Decision :=
  mkDecision (use_rag d) true (rag_query d) (search_query d) (reasoning d).

Definition set_search_query (q : string) (d : Decision) : Decision :=
  mkDecision (use_rag d) (use_search d) (rag_query d) q (reasoning d).

Definition add_reasoning (r : string) (d : Decision) : Decision :=
  mkDecision (use_rag d) (use_search d) (rag_query d) (search_query d)
             (reasoning d ++ r).

Definition set_reasoning (r : string) (d : Decision) : Decision :=
  mkDecision (use_rag d) (use_search d) (rag_query d) (search_query d) r.

(** [for category, keywords in table.items(): if any(...): ... break]:
    the first category, in table order, one of whose keywords occurs. *)
Definition first_match (table : list (string * list string))
    (input_lower : string) : option string :=
  option_map fst (find (fun entry => any_in (snd entry) input_lower) table).

Definition check_stable (input_lower : string) (d : Decision) : bool * Decision :=
  match first_match stable_topics input_lower with
  | Some category =>
      (true,
       add_reasoning ("RAG: " ++ category ++ " information is stable. ")
         (set_use_rag d))
  | None => (false, d)
  end.

Definition check_dynamic (user_input input_lower : string) (d : Decision)
  : bool * Decision :=
  match first_match dynamic_topics input_lower with
  | Some category =>
      let d := add_reasoning ("Search: " ++ category ++ " requires current data. ")
                 (set_use_search d) in
      (true,
       if String.eqb category "market"
       then set_search_query (user_input ++ " 2024 real estate Miami") d
       else if String.eqb category "availability"
       then set_search_query (user_input ++ " MLS listings") d
       else d)
  | None => (false, d)
  end.

Definition check_hybrid (input_lower : string) (stable_match dynamic_match : bool)
    (d : Decision) : Decision :=
  match first_match hybrid_topics input_lower with
  | Some category =>
      if String.eqb category "neighborhoods" && dynamic_match then
        add_reasoning "Both: Neighborhood details + current market. "
          (set_use_search (set_use_rag d))
      else if String.eqb category "comparison" then
        add_reasoning "Both: Static features + current differences. "
          (let d := set_use_rag d in
           if negb stable_match then set_use_search d else d)
      else if String.eqb category "investment" then
        add_reasoning "Both: Investment strategies + current yields. "
          (set_use_search (set_use_rag d))
      else if String.eqb category "comprehensive"
              && any_in neighborhoods input_lower then
        add_reasoning "Comprehensive neighborhood information requested. "
          (let d := set_use_rag d in
           if dynamic_match then set_use_search d else d)
      else d
  | None => d
  end.

#[warnings="-inexact-float"]
Definition threshold : float := 0.7%float.

Definition default_decision (user_input : string) (rag_retriever : option RAGRetriever)
    (d : Decision) : M World Decision :=
  if negb (use_rag d) && negb (use_search d) then
    match rag_retriever with
    | Some retriever =>
        test_results <- retrieve retriever user_input 1 ;;
        if match test_results with
           | [] => false
           | top :: _ => PrimFloat.ltb threshold (relevance_score top)
           end
        then ret (set_reasoning "RAG: High relevance content found. " (set_use_rag d))
        else ret (set_reasoning "Default: Checking knowledge base first. " (set_use_rag d))
    | None =>
        ret (set_reasoning "Default: General query, checking knowledge base. "
               (set_use_rag d))
    end
  else ret d.

(** The decision after the three keyword tables, before the default rule. *)
Definition table_decision (user_input : string) : Decision :=
  let input_lower := lower user_input in
  let decision := mkDecision false false user_input user_input "" in
  let '(stable_match, decision) := check_stable input_lower decision in
  let '(dynamic_match, decision) := check_dynamic user_input input_lower decision in
  check_hybrid input_lower stable_match dynamic_match decision.

Definition analyze_query (user_input : string) (rag_retriever : option RAGRetriever)
  : M World Decision :=
  default_decision user_input rag_retriever (table_decision user_input).

(** Some keyword of some category of the table occurs in the text. *)
Definition matches_table (table : list (string * list string)) (text : string) : bool :=
  existsb (fun entry => any_in (snd entry) text) table.

(** The investment category is the first hybrid category that matches. *)
Definition investment_first (text : string) : bool :=
  negb (any_in neighborhoods text) && negb (any_in comparison_keywords text)
  && any_in investment_keywords text.

Definition no_information : string := "No relevant information found.".

Definition combine_contexts (rag_context search_context query_type : string) : string :=
  if negb (nonempty search_context) && negb (nonempty rag_context) then
    no_information
  else if negb (nonempty search_context) then
    "Based on knowledge base:" ++ nl ++ rag_context
  else if negb (nonempty rag_context) then
    "Current information:" ++ nl ++ search_context
  else if contains "market" query_type || contains "price" query_type then
    "Market Analysis:" ++ nl ++ nl
    ++ "Historical Context and Fundamentals:" ++ nl ++ rag_context ++ nl ++ nl
    ++ "Current Market Conditions:" ++ nl ++ search_context
  else if contains "neighborhood" query_type then
    "Comprehensive Information:" ++ nl ++ nl
    ++ "Neighborhood Characteristics and Features:" ++ nl ++ rag_context ++ nl ++ nl
    ++ "Recent Updates and Current Market:" ++ nl ++ search_context
  else
    "Comprehensive Information:" ++ nl ++ nl
    ++ "From Knowledge Base:" ++ nl ++ rag_context ++ nl ++ nl
    ++ "Current Information:" ++ nl ++ search_context.

(** The header lines [combine_contexts] puts before each source. *)
Definition knowledge_headers : list string :=
  [ "Based on knowledge base:"; "Historical Context and Fundamentals:";
    "Neighborhood Characteristics and Features:"; "From Knowledge Base:" ].

Definition web_headers : list string :=
  [ "Current information:"; "Current Market Conditions:";
    "Recent Updates and Current Market:"; "Current Information:" ].

(** ** SerperSearchTool and ConversationalRealEstateSystem *)

Record SerperSearchTool : Type := {
  api_key : string;
  base_url : string
}.

(** One entry of the conversation memory: the dictionary with the keys
    [user], [agent], [timestamp] and [sources]. *)
Record Exchange : Type := mkExchange {
  user : string;
  agent : string;
  timestamp : float;
  sources : string
}.

Record System : Type := mkSystem {
  real_estate_model : GenerativeModel;
  rag_retriever : RAGRetriever;
  search_tool : SerperSearchTool;
  json_context : pydict;
  conversation_memory : list Exchange;
  session_file : string
}.

Definition set_memory (self : System) (memory : list Exchange) : System :=
  mkSystem (real_estate_model self) (rag_retriever self) (search_tool self)
           (json_context self) memory (session_file self).

Definition set_context (self : System) (context : pydict) : System :=
  mkSystem (real_estate_model self) (rag_retriever self) (search_tool self)
           context (conversation_memory self) (session_file self).

Definition system_prompt : string :=
  "You are Agent Mira, an expert real estate AI assistant with deep knowledge of South Florida real estate."
  ++ nl ++ "        " ++ nl
  ++ "Use the provided knowledge base context to give accurate, specific answers. Be confident and natural in your responses."
  ++ nl
  ++ "Don't mention checking documents or searching - present information as your own expertise."
  ++ nl
  ++ "Focus on being helpful, professional, and conversational.".

Definition prompt_for_input : string :=
  "I'm here to help! What would you like to know about real estate?".

Definition farewell : string :=
  "Thanks for chatting! Feel free to reach out anytime for real estate help. Have a great day!".

Definition apology : string :=
  "I apologize for the technical issue. Let me try to help you with that question again.".

Definition exit_commands : list string := ["exit"; "quit"; "bye"; "goodbye"].

(** [l[-n:]] for [n > 0] *)
Definition last_n {A} (n : nat) (l : list A) : list A :=
  skipn (length l - n) l.

Definition exchange_dict (e : Exchange) : pyval :=
  PyDict [ ("user", PyStr (user e)); ("agent", PyStr (agent e));
           ("timestamp", PyFloat (timestamp e)); ("sources", PyStr (sources e)) ].

Definition save_data (self : System) (now : float) : pyval :=
  PyDict [ ("conversation_memory", PyList (map exchange_dict (conversation_memory self)));
           ("json_context", PyDict (json_context self));
           ("timestamp", PyFloat now) ].

Definition update_property_context (self : System) (context_data : pydict) : System :=
  set_context self (dict_update (json_context self) context_data).

(** [key in v] for a JSON value: a key of a dictionary, an element of a
    list, a part of a string; anything else is not iterable. *)
Definition py_in (key : string) (v : json) : exn + bool :=
  match v with
  | JObj m => inr (existsb (fun kv => String.eqb (fst kv) key) m)
  | JArr l =>
      inr (existsb (fun x => match x with JStr s => String.eqb s key | _ => false end) l)
  | JStr s => inr (contains key s)
  | _ => inl (Exception "argument is not iterable")
  end.

(** [d.get(key)] on the members of a dictionary *)
Fixpoint member (m : list (string * json)) (key : string) : option json :=
  match m with
  | [] => None
  | (k, v) :: m' => if String.eqb k key then Some v else member m' key
  end.

(** [v[key]] for a string key: only a dictionary can be indexed so. *)
Definition py_index (v : json) (key : string) : exn + json :=
  match v with
  | JObj m =>
      match member m key with
      | Some x => inr x
      | None => inl (Exception key)
      end
  | _ => inl (Exception "indices must be integers")
  end.

(** The items [for result in v[:3]] runs over: the first three of a list,
    the first three characters of a string; nothing else can be sliced. *)
Definition first_three (v : json) : exn + list json :=
  match v with
  | JArr l => inr (firstn 3 l)
  | JStr s =>
      inr (map (fun c => JStr (String c EmptyString))
             (firstn 3 (list_ascii_of_string s)))
  | _ => inl (Exception "object is not subscriptable")
  end.

(** [result.get(key, '')]: only a dictionary has [get]. *)
Definition py_get (result : json) (key : string) : exn + json :=
  match result with
  | JObj m => inr (default (JStr "") (member m key))
  | _ => inl (Exception "object has no attribute 'get'")
  end.

(** A value inside an f-string: a string as it is, anything else through
    [str]. *)
Definition format_value (P : Platform) (h : list Event) (v : json) : exn + string :=
  match v with
  | JStr s => inr s
  | _ => py_str P h v
  end.

(** [f"{result.get('title', '')}: {result.get('snippet', '')}"] *)
Definition format_result (P : Platform) (h : list Event) (result : json)
  : exn + string :=
  match py_get result "title" with
  | inl e => inl e
  | inr t =>
      match format_value P h t with
      | inl e => inl e
      | inr title =>
          match py_get result "snippet" with
          | inl e => inl e
          | inr sn =>
              match format_value P h sn with
              | inl e => inl e
              | inr snippet => inr (title ++ ": " ++ snippet)
              end
          end
      end
  end.

Fixpoint format_results_loop (P : Platform) (h : list Event) (results : list json)
  : exn + list string :=
  match results with
  | [] => inr []
  | result :: rest =>
      match format_result P h result with
      | inl e => inl e
      | inr line =>
          match format_results_loop P h rest with
          | inl e => inl e
          | inr lines => inr (line :: lines)
          end
      end
  end.

(** [h] is the history at the call, on which [str] may depend. *)
Definition _format_search_results (P : Platform) (h : list Event)
    (search_results : json) : exn + string :=
  match py_in "error" search_results with
  | inl e => inl e
  | inr true => inr ""
  | inr false =>
      match py_in "organic" search_results with
      | inl e => inl e
      | inr false => inr ""
      | inr true =>
          match py_index search_results "organic" with
          | inl e => inl e
          | inr organic =>
              match first_three organic with
              | inl e => inl e
              | inr results =>
                  match format_results_loop P h results with
                  | inl e => inl e
                  | inr formatted_results => inr (join nl formatted_results)
                  end
              end
          end
      end
  end.

(** The location is added to the search query when the context has a true
    one that the query does not contain; [x not in search_query] raises
    [TypeError] when [x] is not a string. *)
Definition with_location (context : pydict) (search_query : string) : exn + string :=
  match dict_get context "location" with
  | Some location =>
      if truthy location then
        match location with
        | PyStr l =>
            inr (if contains l search_query then search_query
                 else search_query ++ " " ++ l)
        | _ => inl (Exception "'in <string>' requires string as left operand")
        end
      else inr search_query
  | None => inr search_query
  end.

Definition recent_conversation (memory : list Exchange) : string :=
  fold_left
    (fun acc exchange =>
       acc ++ nl ++ "User: " ++ user exchange ++ nl
       ++ "Assistant: " ++ take 200 (agent exchange) ++ "...")
    (last_n 2 memory) "".

Definition build_prompt (sources_used : list string)
    (combined_context recent context_text user_input : string) : string :=
  system_prompt ++ nl ++ nl
  ++ "Information Sources Used: "
  ++ (match sources_used with [] => "General Knowledge" | _ => join ", " sources_used end)
  ++ nl ++ nl
  ++ combined_context ++ nl ++ nl
  ++ "Recent Conversation:" ++ nl
  ++ (if nonempty recent then recent else "This is the start of our conversation.")
  ++ nl ++ nl
  ++ "Current Context: " ++ context_text ++ nl ++ nl
  ++ "User Question: " ++ user_input ++ nl ++ nl
  ++ "Instructions:" ++ nl
  ++ "- Provide a comprehensive, natural response using all available information" ++ nl
  ++ "- Be specific with numbers, prices, and data when available" ++ nl
  ++ "- If information comes from different time periods, blend them naturally" ++ nl
  ++ "- Maintain a helpful, professional tone" ++ nl
  ++ "- Don't mention sources explicitly unless asked".

Section Orchestrator.

Context (P : Platform).

(** [time.time()] *)
Definition now : M World float :=
  fun w => (inr (time_time P (ticks w)), mkWorld (files w) (S (ticks w)) (log w)).

Definition write_file (path : string) (c : file_content) : M World unit :=
  modify (fun w => mkWorld (<[path := c]> (files w)) (ticks w) (log w)).

(** [json.dumps(v)] *)
Definition json_dumps (v : pyval) : M World string :=
  h <- history ;;
  match dump_encode P h v with
  | Some j => ret (json_text P j)
  | None => raise (Exception "Object is not JSON serializable")
  end.

Definition search (self : SerperSearchTool) (query : string)
    (location : option pyval) (num_results : nat) : M World json :=
  let payload_location :=
    match location with
    | Some v => if truthy v then Some v else None
    | None => None
    end in
  try_except
    (h <- history ;;
     emit (EvPost (base_url self) query num_results payload_location) ;;;
     lift (requests_post P h (base_url self) (api_key self) query num_results
             payload_location))
    (fun e =>
       match e with
       | RequestException msg => ret (JObj [("error", JStr msg)])
       | _ => raise e
       end).

(** Opening the file truncates it; a dump that meets a value without an
    encoding stops there.  Every exception is swallowed. *)
Definition _auto_save (self : System) : M World unit :=
  try_except
    (t <- now ;;
     h <- history ;;
     emit (EvOpenWrite (session_file self)) ;;;
     if open_write P h (session_file self) then
       match dump_encode P h (save_data self t) with
       | Some j => write_file (session_file self) (Written j)
       | None =>
           write_file (session_file self) Interrupted ;;;
           raise (Exception "Object is not JSON serializable")
       end
     else raise (Exception "cannot open file"))
    (fun _ => ret tt).

Definition _perform_search (self : System) (query : string) : M World json :=
  search (search_tool self) query (dict_get (json_context self) "location") 5.

Definition _add_to_memory (self : System) (user_msg agent_response sources_used : string)
  : M World System :=
  t <- now ;;
  let memory : list Exchange :=
    (conversation_memory self
     ++ [mkExchange user_msg agent_response t sources_used])%list in
  ret (set_memory self
         (if (20 <? length memory)%nat then last_n 20 memory else memory)).

(** The body of the [try] block of [chat]. *)
Definition answer (self : System) (user_input : string) : M World (string * System) :=
  decision <- analyze_query user_input (Some (rag_retriever self)) ;;
  print (nl ++ "[Decision: " ++ reasoning decision ++ "]") ;;;
  rag_context <-
    (if use_rag decision
     then get_context (rag_retriever self) (rag_query decision) 2000
     else ret "") ;;
  let sources_used :=
    if use_rag decision && nonempty rag_context then ["Knowledge Base"] else [] in
  search_context <-
    (if use_search decision then
       search_query <- lift (with_location (json_context self) (search_query decision)) ;;
       search_results <- _perform_search self search_query ;;
       h <- history ;;
       lift (_format_search_results P h search_results)
     else ret "") ;;
  let sources_used :=
    if use_search decision && nonempty search_context
    then (sources_used ++ ["Current Web Data"])%list
    else sources_used in
  let combined_context :=
    combine_contexts rag_context search_context (lower user_input) in
  context_text <-
    (match json_context self with
     | [] => ret "General inquiry"
     | _ => json_dumps (PyDict (json_context self))
     end) ;;
  let prompt :=
    build_prompt sources_used combined_context
      (recent_conversation (conversation_memory self)) context_text user_input in
  h <- history ;;
  emit (EvGenerate prompt) ;;;
  agent_response <- lift (generate_content (real_estate_model self) h prompt) ;;
  self' <- _add_to_memory self user_input agent_response (join ", " sources_used) ;;
  ret (agent_response, self').

(** The memory changes only in the last step of [answer], after which
    nothing can raise: the handler sees the system as it was. *)
Definition chat (self : System) (user_input : string) : M World (string * System) :=
  let user_input := strip user_input in
  if negb (nonempty user_input) then
    ret (prompt_for_input, self)
  else if existsb (String.eqb (lower user_input)) exit_commands then
    _auto_save self ;;;
    ret (farewell, self)
  else
    try_except
      (answer self user_input)
      (fun e =>
         print ("Error in chat: " ++ exn_str e) ;;;
         ret (apology, self)).

End Orchestrator.

(** What [_auto_save] leaves in the file system: nothing new when the file
    cannot be opened, the encoded snapshot when it can be encoded, and an
    interrupted file otherwise. *)
Definition saved_files (P : Platform) (self : System) (w : World)
  : gmap string file_content :=
  if open_write P (log w) (session_file self) then
    match dump_encode P (log w) (save_data self (time_time P (ticks w))) with
    | Some j => <[session_file self := Written j]> (files w)
    | None => <[session_file self := Interrupted]> (files w)
    end
  else files w.

(** [_add_to_memory] called once per message, in order. *)
Fixpoint add_all (P : Platform) (self : System)
    (messages : list (string * string * string)) : M World System :=
  match messages with
  | [] => ret self
  | (user_msg, agent_response, sources_used) :: rest =>
      self' <- _add_to_memory P self user_msg agent_response sources_used ;;
      add_all P self' rest
  end.

(** The exchanges those calls record, the clock being read once per call. *)
Fixpoint recorded (P : Platform) (tick : nat)
    (messages : list (string * string * string)) : list Exchange :=
  match messages with
  | [] => []
  | (user_msg, agent_response, sources_used) :: rest =>
      mkExchange user_msg agent_response (time_time P tick) sources_used
      :: recorded P (S tick) rest
  end.

(** ** Reading a snapshot back *)

Definition exchange_of_dict (v : pyval) : option Exchange :=
  match v with
  | PyDict d =>
      match dict_get d "user", dict_get d "agent",
            dict_get d "timestamp", dict_get d "sources" with
      | Some (PyStr u), Some (PyStr a), Some (PyFloat t), Some (PyStr s) =>
          Some (mkExchange u a t s)
      | _, _, _, _ => None
      end
  | _ => None
  end.

Fixpoint exchanges_of_list (l : list pyval) : option (list Exchange) :=
  match l with
  | [] => Some []
  | v :: l' =>
      match exchange_of_dict v, exchanges_of_list l' with
      | Some e, Some es => Some (e :: es)
      | _, _ => None
      end
  end.

(** Modelled from the spec: [restore(path)], which the source does not have
    (nothing in it reads a session file).  It loads the document that
    [_auto_save] wrote at [path] and takes the conversation memory and the
    context map from it; [None] when there is no complete document of that
    shape. *)
Definition restore (w : World) (path : string) : option (list Exchange * pydict) :=
  match files w !! path with
  | Some (Written j) =>
      match json_decode j with
      | PyDict data =>
          match dict_get data "conversation_memory", dict_get data "json_context" with
          | Some (PyList memory), Some (PyDict context) =>
              option_map (fun es => (es, context)) (exchanges_of_list memory)
          | _, _ => None
          end
      | _ => None
      end
  | _ => None
  end.

(** ** Concrete collaborators and inputs *)

Definition empty_world : World := mkWorld ∅ 0 [].

Definition compare_query : string := "Compare Brickell vs Aventura for investment".

Definition roi_query : string := "How do I calculate ROI for rental properties?".

Definition one_hit_store : Chroma :=
  {| similarity_search_with_score :=
       fun _ _ _ => inr [(Doc.mk "abcd" ∅, 0.5%float)] |}.

Definition one_hit_retriever : RAGRetriever := {| vectorstore := Some one_hit_store |}.

Definition plain_query : string := "Hello".

Definition silent_model : GenerativeModel :=
  {| generate_content := fun _ _ => inl (Exception "model unavailable") |}.

Definition echo_model : GenerativeModel :=
  {| generate_content := fun _ prompt => inr "Happy to help." |}.

Definition test_platform : Platform :=
  {| requests_post := fun _ _ _ _ _ _ => inl (RequestException "connection refused");
     time_time := fun _ => 0%float;
     open_write := fun _ _ => true;
     json_text := fun _ => "{}";
     int_max_str_digits := 4300;
     json_room := fun _ => 100;
     py_str := fun _ _ => inr "None" |}.

Definition readonly_platform : Platform :=
  {| requests_post := fun _ _ _ _ _ _ => inl (RequestException "connection refused");
     time_time := fun _ => 0%float;
     open_write := fun _ _ => false;
     json_text := fun _ => "{}";
     int_max_str_digits := 4300;
     json_room := fun _ => 100;
     py_str := fun _ _ => inr "None" |}.

Definition test_system (model : GenerativeModel) (context : pydict) : System :=
  mkSystem model one_hit_retriever
    {| api_key := "key"; base_url := "https://google.serper.dev/search" |}
    context [] "session_0.json".

Definition message (n : nat) : string * string * string :=
  (String (ascii_of_nat (65 + n)) EmptyString, "reply", "Knowledge Base").

Definition messages_25 : list (string * string * string) := map message (seq 0 25).

Definition tuple_context : pydict := [("specialties", PyTuple [PyStr "luxury homes"])].

Definition list_context : pydict := [("specialties", PyList [PyStr "luxury homes"])].

Definition opaque_context : pydict := [("viewed", PyOpaque true)].

(** ** Further definitions used by the properties *)

(** The comparison category is the first hybrid category that matches. *)
Definition comparison_first (text : string) : bool :=
  negb (any_in neighborhoods text) && any_in comparison_keywords text.

(** What the dynamic table appends to the search query. *)
Definition search_suffix (text : string) : string :=
  match first_match dynamic_topics text with
  | Some category =>
      if String.eqb category "market" then " 2024 real estate Miami"
      else if String.eqb category "availability" then " MLS listings"
      else ""
  | None => ""
  end.

(** A computation run from [w] ends, normally or not, in a world related
    to [w] by [R]. *)
Definition respects {A} (R : World -> World -> Prop) (m : M World A) : Prop :=
  forall w r w', m w = (r, w') -> R w w'.

(** Only the log has changed. *)
Definition log_only (w w' : World) : Prop :=
  files w' = files w /\ ticks w' = ticks w.

(** [_get_recent_context]: both branches of its test dump the last three
    exchanges. *)
Definition _get_recent_context (P : Platform) (self : System) : M World string :=
  if (length (conversation_memory self) <=? 3)%nat
  then json_dumps P (PyList (map exchange_dict (last_n 3 (conversation_memory self))))
  else json_dumps P (PyList (map exchange_dict (last_n 3 (conversation_memory self)))).

(** The hit [retrieve] makes of one search result. *)
Definition hit_of (result : Doc.t * float) : Hit :=
  mkHit (Doc.page_content (fst result)) (Doc.metadata (fst result))
        (1 / (1 + snd result))%float.

Definition denominator_nonzero (result : Doc.t * float) : bool :=
  negb (PrimFloat.eqb (1 + snd result)%float 0%float).

Definition failing_store : Chroma :=
  {| similarity_search_with_score := fun _ _ _ => inl (Exception "index unavailable") |}.

Definition list_location_context : pydict := [("location", PyList [PyStr "Miami"])].

Definition rates_query : string := "Current mortgage rates in Miami".


(** The location [search] puts in the payload: the context's, when true. *)
Definition payload_location (context : pydict) : option pyval :=
  match dict_get context "location" with
  | Some v => if truthy v then Some v else None
  | None => None
  end.

(** The keys of a dictionary, in order. *)
Definition keys (d : pydict) : list string := map fst d.

Definition miami_context : pydict := [("location", PyStr "Miami-Dade County, FL")].

Definition failing_platform : Platform :=
  {| requests_post := fun _ _ _ _ _ _ => inl (Exception "invalid JSON in response");
     time_time := fun _ => 0%float;
     open_write := fun _ _ => true;
     json_text := fun _ => "{}";
     int_max_str_digits := 4300;
     json_room := fun _ => 100;
     py_str := fun _ _ => inr "None" |}.


(** Every character of the text is white space. *)
Fixpoint all_space (s : string) : bool :=
  match s with
  | EmptyString => true
  | String c s' => isspace c && all_space s'
  end.

Definition is_open_write (ev : Event) : bool :=
  match ev with EvOpenWrite _ => true | _ => false end.

Definition is_generate (ev : Event) : bool :=
  match ev with EvGenerate _ => true | _ => false end.

(** No file is opened or changed, and the clock is not read. *)
Definition no_file_access (w w' : World) : Prop :=
  log_only w w'
  /\ exists events,
       log w' = (log w ++ events)%list
       /\ forallb (fun ev => negb (is_open_write ev) && negb (is_generate ev)) events = true.

(** No file is opened or changed; the clock may be read. *)
Definition files_untouched (w w' : World) : Prop :=
  files w' = files w
  /\ exists events,
       log w' = (log w ++ events)%list
       /\ forallb (fun ev => negb (is_open_write ev)) events = true.

(** The context's location is usable in a search query: absent, false, or
    a string. *)
Definition location_usable (context : pydict) : bool :=
  match dict_get context "location" with
  | Some v => negb (truthy v) || match v with PyStr _ => true | _ => false end
  | None => true
  end.


(** What one exchange adds to the prompt: two labels, the user's text and
    at most 200 characters of the reply. *)
Definition exchange_cost (e : Exchange) : nat :=
  22 + String.length (user e) + Nat.min 200 (String.length (agent e)).

(** The first line of what [combine_contexts] makes of two non-empty
    contexts. *)
Definition combined_title (query_type : string) : string :=
  if contains "market" query_type || contains "price" query_type
  then "Market Analysis:" else "Comprehensive Information:".

Definition sample_exchange : Exchange := mkExchange "Hi" "Hello there" 0%float "".


(** ** DocumentProcessor.load_documents *)

Inductive Loader : Type :=
| PyPDFLoader
| TextLoader
| UnstructuredWordDocumentLoader.

(** [s.endswith(suffix)] *)
Fixpoint endswith (s suffix : string) : bool :=
  String.eqb s suffix
  || match s with
     | EmptyString => false
     | String _ s' => endswith s' suffix
     end.

(** The loader the [if]/[elif] chain picks for a file name; [None] is the
    [continue] of the last branch. *)
Definition loader_for (file : string) : option Loader :=
  if endswith file ".pdf" then Some PyPDFLoader
  else if endswith file ".txt" then Some TextLoader
  else if endswith file ".docx" then Some UnstructuredWordDocumentLoader
  else None.

Inductive DocEvent : Type :=
| DocPrint (text : string)
| DocCreateSamples (directory_path : string)
| DocLoad (loader : Loader) (file_path : string).

(** The file system and the loaders, answering from the events so far.
    [create_sample_documents] is the outcome of the method of that name
    (it makes the directory and writes the sample files, whose text is not
    part of this model): it returns or raises, and what it wrote shows in
    the later answers of [os_walk]. *)
Record Disk : Type := {
  path_exists : list DocEvent -> string -> bool;
  os_walk : list DocEvent -> string -> list (string * list string);
  path_join : string -> string -> string;
  path_basename : string -> string;
  loader_load : list DocEvent -> Loader -> string -> exn + list Doc.t;
  create_sample_documents : list DocEvent -> string -> exn + unit
}.

Definition doc_emit (ev : DocEvent) : M (list DocEvent) unit :=
  modify (fun h => (h ++ [ev])%list).

(** [doc.metadata['source'] = file] and
    [doc.metadata['category'] = os.path.basename(root)] *)
Definition tag_document (D : Disk) (root file : string) (doc : Doc.t) : Doc.t :=
  Doc.mk (Doc.page_content doc)
    (<["category" := path_basename D root]> (<["source" := file]> (Doc.metadata doc))).

(** The body of the inner loop: the documents one file adds. *)
Definition load_file (D : Disk) (root file : string) : M (list DocEvent) (list Doc.t) :=
  let file_path := path_join D root file in
  try_except
    (match loader_for file with
     | Some loader =>
         h <- get ;;
         doc_emit (DocLoad loader file_path) ;;;
         docs <- lift (loader_load D h loader file_path) ;;
         doc_emit (DocPrint ("Loaded: " ++ file)) ;;;
         ret (map (tag_document D root file) docs)
     | None => ret []
     end)
    (fun e =>
       doc_emit (DocPrint ("Error loading " ++ file ++ ": " ++ exn_str e)) ;;;
       ret []).

Fixpoint load_files (D : Disk) (root : string) (files : list string)
  : M (list DocEvent) (list Doc.t) :=
  match files with
  | [] => ret []
  | file :: rest =>
      docs <- load_file D root file ;;
      more <- load_files D root rest ;;
      ret (docs ++ more)%list
  end.

Fixpoint load_walk (D : Disk) (walk : list (string * list string))
  : M (list DocEvent) (list Doc.t) :=
  match walk with
  | [] => ret []
  | (root, files) :: rest =>
      docs <- load_files D root files ;;
      more <- load_walk D rest ;;
      ret (docs ++ more)%list
  end.

Definition load_documents (D : Disk) (directory_path : string)
  : M (list DocEvent) (list Doc.t) :=
  h <- get ;;
  (if negb (path_exists D h directory_path) then
     doc_emit (DocPrint ("Directory " ++ directory_path
                         ++ " not found. Creating sample documents...")) ;;;
     h <- get ;;
     doc_emit (DocCreateSamples directory_path) ;;;
     lift (create_sample_documents D h directory_path)
   else ret tt) ;;;
  h <- get ;;
  load_walk D (os_walk D h directory_path).

(** A document comes from a file of the walk that has a loader, and
    carries that file's name and the name of its folder. *)
Definition tagged_from (D : Disk) (walk : list (string * list string)) (doc : Doc.t)
  : Prop :=
  exists root files file,
    In (root, files) walk /\ In file files
    /\ loader_for file <> None
    /\ Doc.metadata doc !! "source" = Some file
    /\ Doc.metadata doc !! "category" = Some (path_basename D root).

Definition sample_disk : Disk :=
  {| path_exists := fun _ _ => true;
     os_walk := fun _ _ => [("kb/guides", ["buying.txt"; "notes.md"; "broken.pdf"])];
     path_join := fun root file => root ++ "/" ++ file;
     path_basename := fun _ => "guides";
     loader_load := fun _ loader _ =>
       match loader with
       | TextLoader => inr [Doc.mk "HOME BUYING PROCESS" ∅]
       | _ => inl (Exception "cannot read file")
       end;
     create_sample_documents := fun _ _ => inr tt |}.


(** A value is within the encoder's limits: no integer of too many digits,
    no nesting deeper than [depth]. *)
Fixpoint fits (max_str_digits depth : nat) (v : pyval) {struct v} : bool :=
  match v with
  | PyInt n => negb (too_many_digits max_str_digits n)
  | PyList l | PyTuple l =>
      match depth with
      | O => false
      | S depth' => forallb (fits max_str_digits depth') l
      end
  | PyDict d =>
      match depth with
      | O => false
      | S depth' => forallb (fun kv => fits max_str_digits depth' (snd kv)) d
      end
  | _ => true
  end.

(** The values of the context map are within the limits of a dump made at
    this point; in the snapshot they sit two levels down. *)
Definition context_fits (P : Platform) (h : list Event) (context : pydict) : bool :=
  forallb (fun kv => fits (int_max_str_digits P) (1 + json_room P h) (snd kv)) context.

Definition huge_int_context : pydict := [("price", PyInt (10 ^ 4300))].

Definition deep_context : pydict :=
  [("floors", Nat.iter 1000 (fun v => PyList [v]) PyNone)].

Definition answering_platform : Platform :=
  {| requests_post := fun _ _ _ _ _ _ =>
       inr (JObj [("organic",
                   JArr [JObj [("title", JStr "Mortgage rates today");
                               ("snippet", JStr "Rates rose this week")]])]);
     time_time := fun _ => 0%float;
     open_write := fun _ _ => true;
     json_text := fun _ => "{}";
     int_max_str_digits := 4300;
     json_room := fun _ => 100;
     py_str := fun _ _ => inr "None" |}.

(** * Properties *)

(** ** The classifier *)

Lemma run_bind {S A B} (m : M S A) (f : A -> M S B) (s s' : S) (a : A) :
  m s = (inr a, s') -> bind m f s = f a s'.
Proof. intros H. unfold bind. rewrite H. reflexivity. Qed.

(** [retrieve] catches everything: it always returns a list. *)
Lemma retrieve_returns (self : RAGRetriever) (query : string) (k : nat) (w : World) :
  exists hits w', retrieve self query k w = (inr hits, w').
Proof.
  unfold retrieve. destruct (vectorstore self) as [store|]; [|by eexists _, _].
  unfold try_except, bind, history, emit, modify, lift, print; simpl.
  destruct (similarity_search_with_score store (log w) query k) as [e|results];
    [by eexists _, _|].
  destruct (format_results results); by eexists _, _.
Qed.

Lemma first_match_none table text :
  first_match table text = None <-> matches_table table text = false.
Proof.
  unfold first_match, matches_table.
  induction table as [|entry table IH]; simpl; [done|].
  destruct (any_in (snd entry) text); simpl; [split; discriminate | exact IH].
Qed.

Lemma first_match_hybrid text :
  first_match hybrid_topics text =
    if any_in neighborhoods text then Some "neighborhoods"
    else if any_in comparison_keywords text then Some "comparison"
    else if any_in investment_keywords text then Some "investment"
    else if any_in comprehensive_keywords text then Some "comprehensive"
    else None.
Proof.
  unfold first_match, hybrid_topics. cbn [find snd fst].
  destruct (any_in neighborhoods text); [reflexivity|].
  destruct (any_in comparison_keywords text); [reflexivity|].
  destruct (any_in investment_keywords text); [reflexivity|].
  destruct (any_in comprehensive_keywords text); reflexivity.
Qed.

Lemma check_stable_flags text d :
  fst (check_stable text d) = matches_table stable_topics text
  /\ use_rag (snd (check_stable text d)) = (matches_table stable_topics text || use_rag d)
  /\ use_search (snd (check_stable text d)) = use_search d.
Proof.
  unfold check_stable.
  destruct (first_match stable_topics text) as [c|] eqn:E.
  - destruct (matches_table stable_topics text) eqn:Hm.
    + by simpl.
    + apply first_match_none in Hm. congruence.
  - apply first_match_none in E. rewrite E. by simpl.
Qed.

Lemma check_dynamic_flags user_input text d :
  fst (check_dynamic user_input text d) = matches_table dynamic_topics text
  /\ use_rag (snd (check_dynamic user_input text d)) = use_rag d
  /\ use_search (snd (check_dynamic user_input text d))
     = (matches_table dynamic_topics text || use_search d).
Proof.
  unfold check_dynamic.
  destruct (first_match dynamic_topics text) as [c|] eqn:E.
  - destruct (matches_table dynamic_topics text) eqn:Hm.
    + simpl. destruct (String.eqb c "market"); [done|].
      by destruct (String.eqb c "availability").
    + apply first_match_none in Hm. congruence.
  - apply first_match_none in E. rewrite E. by simpl.
Qed.

(** With a stable hit and no dynamic hit, the hybrid table leaves the
    knowledge base on and turns the web search on for investment only. *)
Lemma check_hybrid_stable_only text d :
  use_rag d = true -> use_search d = false ->
  use_rag (check_hybrid text true false d) = true
  /\ use_search (check_hybrid text true false d) = investment_first text.
Proof.
  intros Hr Hs. unfold check_hybrid, investment_first.
  rewrite first_match_hybrid.
  destruct (any_in neighborhoods text) eqn:Hn; [by simpl|].
  destruct (any_in comparison_keywords text); [by simpl|].
  destruct (any_in investment_keywords text); [by simpl|].
  destruct (any_in comprehensive_keywords text); by simpl.
Qed.

Lemma check_hybrid_no_match text sm dm d :
  matches_table hybrid_topics text = false -> check_hybrid text sm dm d = d.
Proof.
  intros H. apply first_match_none in H. unfold check_hybrid. by rewrite H.
Qed.

(** The default rule never raises, leaves the web-search flag alone and
    turns the knowledge base on when neither flag was set. *)
Lemma default_decision_flags user_input probe d w :
  exists d' w',
    default_decision user_input probe d w = (inr d', w')
    /\ use_rag d' = (use_rag d || negb (use_search d))
    /\ use_search d' = use_search d.
Proof.
  unfold default_decision.
  destruct (use_rag d) eqn:Hr; simpl.
  { exists d, w. by rewrite Hr. }
  destruct (use_search d) eqn:Hs; simpl.
  { exists d, w. by rewrite Hr, Hs. }
  destruct probe as [retriever|]; [|by eexists _, _].
  destruct (retrieve_returns retriever user_input 1 w) as (hits & w' & Hret).
  rewrite (run_bind _ _ _ _ _ Hret).
  destruct hits as [|top hits]; [by eexists _, _|].
  destruct (PrimFloat.ltb threshold (relevance_score top)); by eexists _, _.
Qed.

Lemma analyze_query_flags user_input probe w :
  exists d w',
    analyze_query user_input probe w = (inr d, w')
    /\ use_rag d = (use_rag (table_decision user_input)
                    || negb (use_search (table_decision user_input)))
    /\ use_search d = use_search (table_decision user_input).
Proof. apply default_decision_flags. Qed.

Lemma table_decision_stable_only user_input :
  matches_table stable_topics (lower user_input) = true ->
  matches_table dynamic_topics (lower user_input) = false ->
  use_rag (table_decision user_input) = true
  /\ use_search (table_decision user_input) = investment_first (lower user_input).
Proof.
  intros Hs Hd. unfold table_decision.
  set (d0 := mkDecision false false user_input user_input "").
  destruct (check_stable_flags (lower user_input) d0) as (Hs1 & Hs2 & Hs3).
  destruct (check_stable (lower user_input) d0) as [sm d1]; simpl in *.
  destruct (check_dynamic_flags user_input (lower user_input) d1) as (Hd1 & Hd2 & Hd3).
  destruct (check_dynamic user_input (lower user_input) d1) as [dm d2]; simpl in *.
  subst sm dm. rewrite Hs, Hd.
  apply check_hybrid_stable_only.
  - by rewrite Hd2, Hs2, Hs.
  - by rewrite Hd3, Hd, Hs3.
Qed.

Lemma table_decision_no_match user_input :
  matches_table stable_topics (lower user_input) = false ->
  matches_table dynamic_topics (lower user_input) = false ->
  matches_table hybrid_topics (lower user_input) = false ->
  use_rag (table_decision user_input) = false
  /\ use_search (table_decision user_input) = false.
Proof.
  intros Hs Hd Hh. unfold table_decision.
  set (d0 := mkDecision false false user_input user_input "").
  destruct (check_stable_flags (lower user_input) d0) as (Hs1 & Hs2 & Hs3).
  destruct (check_stable (lower user_input) d0) as [sm d1]; simpl in *.
  destruct (check_dynamic_flags user_input (lower user_input) d1) as (Hd1 & Hd2 & Hd3).
  destruct (check_dynamic user_input (lower user_input) d1) as [dm d2]; simpl in *.
  rewrite check_hybrid_no_match by done.
  rewrite Hd2, Hd3, Hs2, Hs3, Hs, Hd. done.
Qed.

(** C1, as amended.  For every query whose lowercased form contains a
    stable-topic keyword and no dynamic-topic keyword, whatever the probe,
    [analyze_query] returns a decision with [use_rag = true]; its
    [use_search] is false unless investment is the first hybrid category
    that matches (an investment keyword occurs, and no neighbourhood or
    comparison keyword), in which case it is true. *)
Theorem analyze_query_stable_only (user_input : string)
    (probe : option RAGRetriever) (w : World) :
  matches_table stable_topics (lower user_input) = true ->
  matches_table dynamic_topics (lower user_input) = false ->
  exists d w',
    analyze_query user_input probe w = (inr d, w')
    /\ use_rag d = true
    /\ use_search d = investment_first (lower user_input).
Proof.
  intros Hs Hd.
  destruct (analyze_query_flags user_input probe w) as (d & w' & Hrun & Hr & Hq).
  destruct (table_decision_stable_only user_input Hs Hd) as [Tr Tq].
  exists d, w'. rewrite Hr, Hq, Tr, Tq. done.
Qed.

Lemma analyze_query_stable_only_witness :
  exists d w',
    analyze_query "What amenities does Wynwood offer?" None empty_world = (inr d, w')
    /\ use_rag d = true
    /\ use_search d = investment_first (lower "What amenities does Wynwood offer?").
Proof.
  apply (analyze_query_stable_only "What amenities does Wynwood offer?" None empty_world);
    vm_compute; reflexivity.
Defined.

(** C1 fails as stated: the query of the source's own test list about ROI
    has a stable keyword (how do), no dynamic keyword, and gets both
    sources. *)
Lemma roi_query_uses_search :
  matches_table stable_topics (lower roi_query) = true
  /\ matches_table dynamic_topics (lower roi_query) = false
  /\ exists d, fst (analyze_query roi_query None empty_world) = inr d
               /\ use_rag d = true /\ use_search d = true.
Proof.
  split; [vm_compute; reflexivity|]. split; [vm_compute; reflexivity|].
  eexists. split; [vm_compute; reflexivity|]. split; reflexivity.
Qed.

(** C2 fails as stated: for the comparison query the decision has the web
    search off. *)
Lemma compare_query_not_both :
  exists d, fst (analyze_query compare_query None empty_world) = inr d
            /\ use_rag d = true /\ use_search d = false
            /\ reasoning d = "Default: General query, checking knowledge base. ".
Proof.
  eexists. split; [vm_compute; reflexivity|]. repeat split; reflexivity.
Qed.

(** C2, as amended.  For the input "Compare Brickell vs Aventura for
    investment", whatever the probe, [analyze_query] returns a decision with
    [use_rag = true] and [use_search = false]: no stable and no dynamic
    keyword occurs, the neighbourhood category is the first hybrid category
    that matches, its rule needs a dynamic hit and sets nothing, and the
    default rule then turns the knowledge base on. *)
Theorem analyze_query_compare (probe : option RAGRetriever) (w : World) :
  exists d w',
    analyze_query compare_query probe w = (inr d, w')
    /\ use_rag d = true /\ use_search d = false
    /\ first_match stable_topics (lower compare_query) = None
    /\ first_match dynamic_topics (lower compare_query) = None
    /\ first_match hybrid_topics (lower compare_query) = Some "neighborhoods"
    /\ table_decision compare_query
       = mkDecision false false compare_query compare_query "".
Proof.
  destruct (analyze_query_flags compare_query probe w) as (d & w' & Hrun & Hr & Hq).
  exists d, w'. split; [exact Hrun|].
  assert (Ht : table_decision compare_query
               = mkDecision false false compare_query compare_query "")
    by (vm_compute; reflexivity).
  rewrite Ht in Hr, Hq. simpl in Hr, Hq.
  repeat split; try assumption; vm_compute; reflexivity.
Qed.

(** C8.  For every query in which no keyword of any of the three tables
    matches, [analyze_query] returns [use_rag = true] and
    [use_search = false], with or without a probe and whatever the probe
    returns. *)
Theorem analyze_query_default (user_input : string)
    (probe : option RAGRetriever) (w : World) :
  matches_table stable_topics (lower user_input) = false ->
  matches_table dynamic_topics (lower user_input) = false ->
  matches_table hybrid_topics (lower user_input) = false ->
  exists d w',
    analyze_query user_input probe w = (inr d, w')
    /\ use_rag d = true /\ use_search d = false.
Proof.
  intros Hs Hd Hh.
  destruct (analyze_query_flags user_input probe w) as (d & w' & Hrun & Hr & Hq).
  destruct (table_decision_no_match user_input Hs Hd Hh) as [Tr Tq].
  exists d, w'. rewrite Hr, Hq, Tr, Tq. done.
Qed.

Lemma analyze_query_default_witness :
  exists d w',
    analyze_query plain_query (Some one_hit_retriever) empty_world = (inr d, w')
    /\ use_rag d = true /\ use_search d = false.
Proof.
  apply (analyze_query_default plain_query (Some one_hit_retriever) empty_world);
    vm_compute; reflexivity.
Defined.

(** C10.  For every input and every probe, [analyze_query] returns a
    decision with at least one source enabled. *)
Theorem analyze_query_some_source (user_input : string)
    (probe : option RAGRetriever) (w : World) :
  exists d w',
    analyze_query user_input probe w = (inr d, w')
    /\ (use_rag d || use_search d) = true.
Proof.
  destruct (analyze_query_flags user_input probe w) as (d & w' & Hrun & Hr & Hq).
  exists d, w'. split; [exact Hrun|]. rewrite Hr, Hq.
  destruct (use_rag (table_decision user_input)),
           (use_search (table_decision user_input)); reflexivity.
Qed.

(** ** The context assembler *)

Lemma get_context_loop_prefix (results : list Hit) max_tokens token_count
    (parts : list string) :
  (token_count <= max_tokens)%Z ->
  exists included dropped,
    results = (included ++ dropped)%list
    /\ get_context_loop results max_tokens token_count parts
       = (parts ++ map tagged included)%list
    /\ (token_count + sum_tokens included <= max_tokens)%Z
    /\ (forall next rest, dropped = next :: rest ->
        (token_count + sum_tokens included + content_tokens (content next)
         > max_tokens)%Z).
Proof.
  revert token_count parts.
  induction results as [|result results IH]; intros token_count parts Hle.
  - exists [], []. simpl. rewrite app_nil_r.
    repeat split; [lia | discriminate].
  - simpl.
    destruct (token_count + content_tokens (content result) >? max_tokens)%Z eqn:Hover.
    + exists [], (result :: results). simpl. rewrite app_nil_r.
      repeat split; [lia|]. intros next rest [= <- <-]. lia.
    + destruct (IH (token_count + content_tokens (content result))%Z
                  (parts ++ [tagged result])%list) as (inc & drop & -> & Hloop & Hsum & Hnext);
        [lia|].
      exists (result :: inc), drop. simpl. rewrite Hloop, <- app_assoc. simpl.
      repeat split; [lia|]. intros next rest Hd.
      specialize (Hnext next rest Hd). lia.
Qed.

Lemma content_tokens_nonneg c : (0 <= content_tokens c)%Z.
Proof. unfold content_tokens. apply Z.div_pos; lia. Qed.

Lemma sum_tokens_nonneg results : (0 <= sum_tokens results)%Z.
Proof.
  induction results as [|result results IH]; simpl; [lia|].
  pose proof (content_tokens_nonneg (content result)). lia.
Qed.

(** C3, as amended.  For every query, every non-negative budget and every
    sequence of hits [retrieve] returns, [get_context] returns the tagged
    texts of a prefix of the hits joined by the separator: a hit is included
    whole or left out whole.  The content token counts ([len(content) // 4]
    each) of the included hits add up to at most the budget, the first hit
    left out would have taken the count over it, and when the first hit
    alone exceeds the budget the result is the empty string.  The tags and
    separators are not counted. *)
Theorem get_context_budget (self : RAGRetriever) (query : string)
    (max_tokens : Z) (w : World) :
  (0 <= max_tokens)%Z ->
  exists hits w1 included dropped,
    retrieve self query 5 w = (inr hits, w1)
    /\ hits = (included ++ dropped)%list
    /\ get_context self query max_tokens w
       = (inr (join separator (map tagged included)), w1)
    /\ (sum_tokens included <= max_tokens)%Z
    /\ (forall next rest, dropped = next :: rest ->
        (sum_tokens included + content_tokens (content next) > max_tokens)%Z)
    /\ (forall first rest, hits = first :: rest ->
        (content_tokens (content first) > max_tokens)%Z ->
        included = [] /\ get_context self query max_tokens w = (inr "", w1)).
Proof.
  intros Hbudget.
  destruct (retrieve_returns self query 5 w) as (hits & w1 & Hret).
  destruct (get_context_loop_prefix hits max_tokens 0 [] Hbudget)
    as (inc & drop & Hsplit & Hloop & Hsum & Hnext).
  assert (Hrun : get_context self query max_tokens w
                 = (inr (join separator (map tagged inc)), w1)).
  { unfold get_context. rewrite (run_bind _ _ _ _ _ Hret).
    destruct hits as [|first rest].
    - destruct inc; [reflexivity | discriminate].
    - rewrite Hloop. reflexivity. }
  exists hits, w1, inc, drop.
  split; [exact Hret|]. split; [exact Hsplit|]. split; [exact Hrun|].
  split; [lia|]. split.
  - intros next rest Hd. specialize (Hnext next rest Hd). lia.
  - intros first rest -> Hover.
    destruct inc as [|first' inc]; [by rewrite Hrun|].
    injection Hsplit as <- _. simpl in Hsum.
    pose proof (sum_tokens_nonneg inc). lia.
Qed.

Lemma get_context_budget_witness :
  exists hits w1 included dropped,
    retrieve one_hit_retriever "q" 5 empty_world = (inr hits, w1)
    /\ hits = (included ++ dropped)%list
    /\ get_context one_hit_retriever "q" 1 empty_world
       = (inr (join separator (map tagged included)), w1)
    /\ (sum_tokens included <= 1)%Z
    /\ (forall next rest, dropped = next :: rest ->
        (sum_tokens included + content_tokens (content next) > 1)%Z)
    /\ (forall first rest, hits = first :: rest ->
        (content_tokens (content first) > 1)%Z ->
        included = [] /\ get_context one_hit_retriever "q" 1 empty_world = (inr "", w1)).
Proof.
  apply (get_context_budget one_hit_retriever "q" 1 empty_world). lia.
Defined.

(** C3 fails as stated: with a budget of one token and a single hit of
    four characters, the hit fits, and the returned text with its tag
    counts four tokens. *)
Lemma get_context_over_budget :
  exists text w',
    get_context one_hit_retriever "q" 1 empty_world = (inr text, w')
    /\ approx_tokens text = 4%Z
    /\ (approx_tokens text > 1)%Z.
Proof.
  eexists _, _. split; [reflexivity|]. split; [reflexivity|]. reflexivity.
Qed.

(** ** The conversation memory *)

Lemma last_n_short {A} (n : nat) (l : list A) : length l <= n -> last_n n l = l.
Proof. intros H. unfold last_n. by replace (length l - n) with 0 by lia. Qed.

Lemma last_n_length {A} (n : nat) (l : list A) : length (last_n n l) = min n (length l).
Proof. unfold last_n. rewrite length_skipn. lia. Qed.

Lemma last_n_app_last_n {A} (n : nat) (l l2 : list A) :
  last_n n (last_n n l ++ l2) = last_n n (l ++ l2).
Proof.
  unfold last_n. rewrite !length_app, length_skipn, !skipn_app, length_skipn.
  rewrite skipn_skipn. f_equal; f_equal; lia.
Qed.

(** One append: the clock is read once, nothing is raised, and the new
    memory is the last 20 entries of the old one followed by the new entry. *)
Lemma add_to_memory_spec P self user_msg agent_response sources_used w :
  _add_to_memory P self user_msg agent_response sources_used w
  = (inr (set_memory self
            (last_n 20 (conversation_memory self
                        ++ [mkExchange user_msg agent_response
                              (time_time P (ticks w)) sources_used]))),
     mkWorld (files w) (S (ticks w)) (log w)).
Proof.
  unfold _add_to_memory, bind, now, ret. simpl.
  match goal with |- context [if ?b then _ else _] => destruct b eqn:Hb end;
    [reflexivity|].
  apply Nat.ltb_ge in Hb. by rewrite last_n_short.
Qed.

Lemma recorded_length P tick messages : length (recorded P tick messages) = length messages.
Proof.
  revert tick. induction messages as [|[[u a] s] messages IH]; intros tick; simpl; [done|].
  by rewrite IH.
Qed.

Lemma add_all_spec P messages self w :
  length (conversation_memory self) <= 20 ->
  exists self' w',
    add_all P self messages w = (inr self', w')
    /\ conversation_memory self'
       = last_n 20 (conversation_memory self ++ recorded P (ticks w) messages).
Proof.
  revert self w. induction messages as [|[[u a] s] messages IH]; intros self w Hlen.
  - exists self, w. simpl. by rewrite app_nil_r, last_n_short.
  - simpl. rewrite (run_bind _ _ _ _ _ (add_to_memory_spec P self u a s w)).
    edestruct IH as (self' & w' & Hrun & Hmem); [|exists self', w'; split; [exact Hrun|]].
    + simpl. rewrite last_n_length. lia.
    + rewrite Hmem. simpl. rewrite last_n_app_last_n, <- app_assoc. reflexivity.
Qed.

(** C4.  Starting from an empty memory, 25 calls of [_add_to_memory] in
    sequence leave exactly the 20 most recent exchanges, in the order they
    were recorded; and every single call, from any memory, returns without
    raising, leaves at most 20 entries, keeps the newest entry last, and
    when the memory was full drops its oldest entry. *)
Theorem memory_keeps_last_20 (P : Platform) (self : System)
    (messages : list (string * string * string)) (w : World) :
  conversation_memory self = [] ->
  length messages = 25 ->
  (exists self' w',
      add_all P self messages w = (inr self', w')
      /\ conversation_memory self' = skipn 5 (recorded P (ticks w) messages)
      /\ length (conversation_memory self') = 20)
  /\ (forall (s : System) (user_msg agent_response sources_used : string) (w0 : World),
        exists s' w0',
          let new := mkExchange user_msg agent_response (time_time P (ticks w0))
                       sources_used in
          _add_to_memory P s user_msg agent_response sources_used w0 = (inr s', w0')
          /\ length (conversation_memory s') <= 20
          /\ conversation_memory s' = last_n 20 (conversation_memory s ++ [new])
          /\ (length (conversation_memory s) = 20 ->
              conversation_memory s' = (tail (conversation_memory s) ++ [new])%list)).
Proof.
  intros Hempty Hlen. split.
  - destruct (add_all_spec P messages self w) as (self' & w' & Hrun & Hmem).
    { rewrite Hempty. simpl. lia. }
    exists self', w'. split; [exact Hrun|].
    rewrite Hmem, Hempty. simpl. unfold last_n.
    rewrite length_skipn, recorded_length, Hlen. done.
  - intros s u a src w0. eexists _, _. cbv zeta.
    split; [apply add_to_memory_spec|]. simpl.
    split; [rewrite last_n_length; lia|]. split; [reflexivity|].
    intros H20. unfold last_n. rewrite length_app, H20. simpl.
    destruct (conversation_memory s); [discriminate | reflexivity].
Qed.

Lemma memory_keeps_last_20_witness :
  exists self' w',
    add_all test_platform (test_system echo_model []) messages_25 empty_world
    = (inr self', w')
    /\ conversation_memory self'
       = skipn 5 (recorded test_platform (ticks empty_world) messages_25)
    /\ length (conversation_memory self') = 20.
Proof.
  exact (proj1 (memory_keeps_last_20 test_platform (test_system echo_model [])
                  messages_25 empty_world eq_refl eq_refl)).
Defined.

(** ** The context combiner *)

Lemma prefix_refl s : String.prefix s s = true.
Proof. induction s as [|c s IH]; simpl; [done|]. by destruct (ascii_dec c c). Qed.

Lemma contains_self s : contains s s = true.
Proof. destruct s; simpl; [done|]. destruct (ascii_dec a a); [|done]. by rewrite prefix_refl. Qed.

Lemma contains_append_r (p s t : string) :
  contains s t = true -> contains s (p ++ t) = true.
Proof.
  intros H. induction p as [|c p IH]; [exact H|].
  change (String c p ++ t) with (String c (p ++ t)).
  cbn [contains]. rewrite IH. apply orb_true_r.
Qed.

Lemma nonempty_true s : s <> "" -> nonempty s = true.
Proof. by destruct s. Qed.

(** C5.  For every topic hint [x]: both inputs empty give the fixed
    sentinel; a knowledge text alone (here "A") gives a result that contains
    it and none of the web-data headers; a web text alone (here "B") gives
    a result that contains it and none of the knowledge-base headers.  More
    generally a single non-empty input [a] is put under its own single header,
    so no header is ever followed by an empty body. *)
Theorem combine_contexts_degrades (x : string) :
  combine_contexts "" "" x = no_information
  /\ contains "A" (combine_contexts "A" "" x) = true
  /\ forallb (fun header => negb (contains header (combine_contexts "A" "" x)))
       web_headers = true
  /\ contains "B" (combine_contexts "" "B" x) = true
  /\ forallb (fun header => negb (contains header (combine_contexts "" "B" x)))
       knowledge_headers = true
  /\ (forall a, a <> "" ->
        combine_contexts a "" x = "Based on knowledge base:" ++ nl ++ a
        /\ contains a (combine_contexts a "" x) = true
        /\ combine_contexts "" a x = "Current information:" ++ nl ++ a
        /\ contains a (combine_contexts "" a x) = true).
Proof.
  repeat split; try reflexivity.
  - unfold combine_contexts. rewrite (nonempty_true a) by done. reflexivity.
  - unfold combine_contexts. rewrite (nonempty_true a) by done. simpl negb.
    cbv iota beta. do 2 apply contains_append_r. apply contains_self.
  - unfold combine_contexts. rewrite (nonempty_true a) by done. reflexivity.
  - unfold combine_contexts. rewrite (nonempty_true a) by done. simpl negb.
    cbv iota beta. do 2 apply contains_append_r. apply contains_self.
Qed.

(** ** The orchestrator *)

Lemma isspace_lower_char c : isspace (lower_char c) = isspace c.
Proof. destruct c as [[] [] [] [] [] [] [] []]; reflexivity. Qed.

Lemma no_space_lower s : no_space (lower s) = no_space s.
Proof. induction s as [|c s IH]; simpl; [done|]. by rewrite isspace_lower_char, IH. Qed.

Lemma lstrip_no_space s : no_space s = true -> lstrip s = s.
Proof. destruct s as [|c s]; simpl; [done|]. by destruct (isspace c). Qed.

Lemma rstrip_no_space s : no_space s = true -> rstrip s = s.
Proof.
  induction s as [|c s IH]; simpl; [done|].
  destruct (isspace c); simpl; [done|]. intros H. rewrite (IH H). by destruct s.
Qed.

Lemma strip_no_space s : no_space s = true -> strip s = s.
Proof. intros H. unfold strip. rewrite (lstrip_no_space s H). by apply rstrip_no_space. Qed.

Lemma exit_command_no_space s : In s exit_commands -> no_space s = true /\ s <> "".
Proof. simpl. intros [<-|[<-|[<-|[<-|[]]]]]; by split. Qed.

Lemma existsb_eqb s (l : list string) : In s l -> existsb (String.eqb s) l = true.
Proof.
  intros H. apply existsb_exists. exists s. split; [exact H|]. apply String.eqb_refl.
Qed.

(** [_auto_save] swallows every exception; it reads the clock, tries to
    open the session file and leaves [saved_files]. *)
Lemma auto_save_spec P self w :
  _auto_save P self w
  = (inr tt,
     mkWorld (saved_files P self w) (S (ticks w))
             (log w ++ [EvOpenWrite (session_file self)])).
Proof.
  unfold _auto_save, saved_files, try_except, bind, now, history, emit, modify.
  cbn [log ticks files].
  destruct (open_write P (log w) (session_file self)); [|reflexivity].
  destruct (dump_encode P (log w) (save_data self (time_time P (ticks w)))); reflexivity.
Qed.

(** C7.  For every input that, case-insensitively, equals one of the exit
    keywords, [chat] returns the fixed farewell and the system unchanged (no
    memory append), and what it did to the world is exactly one run of
    [_auto_save]: the clock read once, the session file opened for writing
    and the snapshot left there, and no retriever, web-search or
    language-model call. *)
Theorem chat_exit (P : Platform) (self : System) (user_input : string) (w : World) :
  In (lower user_input) exit_commands ->
  exists w',
    chat P self user_input w = (inr (farewell, self), w')
    /\ _auto_save P self w = (inr tt, w')
    /\ log w' = (log w ++ [EvOpenWrite (session_file self)])%list
    /\ files w' = saved_files P self w.
Proof.
  intros Hexit.
  destruct (exit_command_no_space _ Hexit) as [Hns Hne].
  rewrite no_space_lower in Hns.
  eexists. split; [|split; [apply auto_save_spec|split; reflexivity]].
  unfold chat. rewrite (strip_no_space _ Hns).
  destruct user_input as [|c s]; [done|]. cbn [nonempty negb].
  rewrite (existsb_eqb _ _ Hexit).
  by rewrite (run_bind _ _ _ _ _ (auto_save_spec P self w)).
Qed.

Lemma chat_exit_witness :
  exists w',
    chat test_platform (test_system echo_model []) "Bye" empty_world
    = (inr (farewell, test_system echo_model []), w')
    /\ _auto_save test_platform (test_system echo_model []) empty_world = (inr tt, w')
    /\ log w' = (log empty_world
                 ++ [EvOpenWrite (session_file (test_system echo_model []))])%list
    /\ files w' = saved_files test_platform (test_system echo_model []) empty_world.
Proof.
  apply (chat_exit test_platform (test_system echo_model []) "Bye" empty_world).
  simpl. right; right; left. reflexivity.
Defined.

(** ** Snapshots *)

Lemma pyval_nested_ind (Q : pyval -> Prop) :
  Q PyNone -> (forall b, Q (PyBool b)) -> (forall n, Q (PyInt n)) ->
  (forall x, Q (PyFloat x)) -> (forall s, Q (PyStr s)) ->
  (forall l, Forall Q l -> Q (PyList l)) ->
  (forall l, Forall Q l -> Q (PyTuple l)) ->
  (forall d, Forall (fun kv => Q (snd kv)) d -> Q (PyDict d)) ->
  (forall b, Q (PyOpaque b)) ->
  forall v, Q v.
Proof.
  intros HNone HBool HInt HFloat HStr HList HTuple HDict HOpaque.
  fix IH 1. intros [ | b | n | x | s | l | l | d | b].
  - exact HNone.
  - apply HBool.
  - apply HInt.
  - apply HFloat.
  - apply HStr.
  - apply HList. induction l as [|v l IHl]; constructor; [apply IH | exact IHl].
  - apply HTuple. induction l as [|v l IHl]; constructor; [apply IH | exact IHl].
  - apply HDict. induction d as [|[k v] d IHd]; constructor; [apply IH | exact IHd].
  - apply HOpaque.
Qed.

(** On values without tuples and unencodable objects that are within the
    limits, encoding succeeds and decoding gives the value back. *)
Lemma json_decode_encode dg dp v :
  json_native v = true -> fits dg dp v = true ->
  exists j, json_encode dg dp v = Some j /\ json_decode j = v.
Proof.
  revert dp.
  induction v as [ | b | n | x | s | l IH | l IH | d IH | b] using pyval_nested_ind;
    intros dp Hn Hf; try discriminate; try (by eexists).
  - cbn [fits] in Hf. cbn [json_encode].
    destruct (too_many_digits dg n); [discriminate | by eexists].
  - destruct dp as [|dp]; [discriminate|].
    cbn [json_native] in Hn. cbn [fits] in Hf. cbn [json_encode].
    match goal with |- context [option_map JArr (?f l)] => set (enc := f) end.
    assert (H : exists js, enc l = Some js /\ map json_decode js = l).
    { induction IH as [|v l Hv _ IHl]; [by exists []|].
      cbn [forallb] in Hn, Hf.
      apply andb_true_iff in Hn as [Hv' Hl']. apply andb_true_iff in Hf as [Hv'' Hl''].
      destruct (Hv dp Hv' Hv'') as (j & Hj & Hdj).
      destruct (IHl Hl' Hl'') as (js & Hjs & Hdjs).
      exists (j :: js). subst enc. cbn. rewrite Hj.
      cbn in Hjs. rewrite Hjs. cbn. by rewrite Hdj, Hdjs. }
    destruct H as (js & -> & Hd). exists (JArr js). cbn. by rewrite Hd.
  - destruct dp as [|dp]; [discriminate|].
    cbn [json_native] in Hn. cbn [fits] in Hf. cbn [json_encode].
    match goal with |- context [option_map JObj (?f d)] => set (enc := f) end.
    assert (H : exists js, enc d = Some js
                /\ map (fun kv => (fst kv, json_decode (snd kv))) js = d).
    { induction IH as [|[k v] d Hv _ IHd]; [by exists []|].
      cbn [forallb snd] in Hn, Hf.
      apply andb_true_iff in Hn as [Hv' Hd']. apply andb_true_iff in Hf as [Hv'' Hd''].
      destruct (Hv dp Hv' Hv'') as (j & Hj & Hdj).
      destruct (IHd Hd' Hd'') as (js & Hjs & Hdjs).
      exists ((k, j) :: js). subst enc. cbn. cbn in Hj. rewrite Hj.
      cbn in Hjs. rewrite Hjs. cbn. by rewrite Hdj, Hdjs. }
    destruct H as (js & -> & Hd). exists (JObj js). cbn. by rewrite Hd.
Qed.

Lemma exchange_dict_native e : json_native (exchange_dict e) = true.
Proof. reflexivity. Qed.

Lemma exchange_dict_fits dg dp e : fits dg (S dp) (exchange_dict e) = true.
Proof. reflexivity. Qed.

Lemma exchanges_of_list_dicts memory :
  exchanges_of_list (map exchange_dict memory) = Some memory.
Proof.
  induction memory as [|[u a t s] memory IH]; [reflexivity|].
  cbn [map exchanges_of_list]. rewrite IH. reflexivity.
Qed.

Lemma exchanges_native (memory : list Exchange) :
  forallb json_native (map exchange_dict memory) = true.
Proof.
  apply forallb_forall. intros v Hv.
  apply in_map_iff in Hv as (e & <- & _). apply exchange_dict_native.
Qed.

Lemma exchanges_fit dg dp (memory : list Exchange) :
  forallb (fits dg (S dp)) (map exchange_dict memory) = true.
Proof.
  apply forallb_forall. intros v Hv.
  apply in_map_iff in Hv as (e & <- & _). apply exchange_dict_fits.
Qed.

Lemma save_data_native self t :
  json_native_dict (json_context self) = true -> json_native (save_data self t) = true.
Proof.
  intros H. unfold save_data. cbn [json_native forallb snd].
  fold (json_native_dict (json_context self)). rewrite H, !andb_true_r.
  apply exchanges_native.
Qed.

Lemma save_data_fits P h self t :
  context_fits P h (json_context self) = true ->
  fits (int_max_str_digits P) (json_depth P h) (save_data self t) = true.
Proof.
  intros H. unfold save_data, json_depth, snapshot_levels.
  cbn [Nat.add fits forallb snd]. rewrite exchanges_fit.
  unfold context_fits in H. cbn [Nat.add] in H. by rewrite H.
Qed.

(** C9, as amended.  For every session state whose context map holds
    only values that JSON has (no tuple and no object without an encoding,
    at any depth) within the limits of the encoder (no integer of more
    digits than the interpreter's limit, no nesting deeper than its
    recursion limit leaves room for), and whose session file can be opened
    for writing, restoring from the snapshot [_auto_save] writes yields the
    same ordered exchange list and the same context map (the same values:
    a NaN comes back as a NaN). *)
Theorem restore_auto_save (P : Platform) (self : System) (w : World) :
  json_native_dict (json_context self) = true ->
  context_fits P (log w) (json_context self) = true ->
  open_write P (log w) (session_file self) = true ->
  exists w',
    _auto_save P self w = (inr tt, w')
    /\ restore w' (session_file self)
       = Some (conversation_memory self, json_context self).
Proof.
  intros Hnative Hfits Hopen. eexists. split; [apply auto_save_spec|].
  unfold restore, saved_files, dump_encode. cbn [files]. rewrite Hopen.
  destruct (json_decode_encode _ _ _
              (save_data_native self (time_time P (ticks w)) Hnative)
              (save_data_fits P (log w) self (time_time P (ticks w)) Hfits))
    as (j & -> & Hdec).
  rewrite lookup_insert_eq, Hdec. unfold save_data.
  cbn [dict_get String.eqb Ascii.eqb Bool.eqb].
  by rewrite exchanges_of_list_dicts.
Qed.

Lemma restore_auto_save_witness :
  exists w',
    _auto_save test_platform (test_system echo_model list_context) empty_world
    = (inr tt, w')
    /\ restore w' "session_0.json" = Some ([], list_context).
Proof.
  apply (restore_auto_save test_platform (test_system echo_model list_context)
           empty_world); reflexivity.
Defined.

(** Two sessions that differ only by a tuple in place of a list leave the
    same snapshot, so no way of reading snapshots can give both back. *)
Lemma auto_save_conflates_tuple_and_list :
  _auto_save test_platform (test_system echo_model tuple_context) empty_world
  = _auto_save test_platform (test_system echo_model list_context) empty_world
  /\ tuple_context <> list_context.
Proof. split; [rewrite !auto_save_spec; reflexivity | discriminate]. Qed.

(** C9 fails as stated: a context map with a tuple comes back with a
    list in its place. *)
Lemma tuple_context_not_restored :
  exists w' restored,
    _auto_save test_platform (test_system echo_model tuple_context) empty_world
    = (inr tt, w')
    /\ restore w' "session_0.json" = Some ([], restored)
    /\ restored = list_context
    /\ restored <> json_context (test_system echo_model tuple_context).
Proof.
  eexists _, _. split; [apply auto_save_spec|].
  split; [vm_compute; reflexivity|]. split; [reflexivity | discriminate].
Qed.

(** The two ways a snapshot is lost without a word: a value with no
    encoding interrupts the dump, and a file that cannot be opened is not
    written at all. *)
Lemma opaque_context_not_restored :
  exists w',
    _auto_save test_platform (test_system echo_model opaque_context) empty_world
    = (inr tt, w')
    /\ files w' !! "session_0.json" = Some Interrupted
    /\ restore w' "session_0.json" = None.
Proof.
  eexists. split; [apply auto_save_spec|]. split; vm_compute; reflexivity.
Qed.

(** The same happens at the limits of the encoder: an integer of 4301
    digits in the context map, or lists nested deeper than the interpreter
    has room for. *)
Lemma huge_int_context_not_restored :
  exists w',
    _auto_save test_platform (test_system echo_model huge_int_context) empty_world
    = (inr tt, w')
    /\ files w' !! "session_0.json" = Some Interrupted
    /\ restore w' "session_0.json" = None.
Proof.
  eexists. split; [apply auto_save_spec|]. split; vm_compute; reflexivity.
Qed.

Lemma deep_context_not_restored :
  exists w',
    _auto_save test_platform (test_system echo_model deep_context) empty_world
    = (inr tt, w')
    /\ files w' !! "session_0.json" = Some Interrupted
    /\ restore w' "session_0.json" = None.
Proof.
  eexists. split; [apply auto_save_spec|]. split; vm_compute; reflexivity.
Qed.

Lemma unwritable_session_not_restored :
  exists w',
    _auto_save readonly_platform (test_system echo_model list_context) empty_world
    = (inr tt, w')
    /\ files w' = files empty_world
    /\ restore w' "session_0.json" = None.
Proof.
  eexists. split; [apply auto_save_spec|]. split; vm_compute; reflexivity.
Qed.

(** * Further properties *)

(** ** Strings *)

Lemma string_app_cons c (s t : string) : String c s ++ t = String c (s ++ t).
Proof. reflexivity. Qed.

Lemma string_app_nil_r (s : string) : s ++ "" = s.
Proof. induction s as [|c s IH]; [done|]. by rewrite string_app_cons, IH. Qed.

Lemma string_length_app (s t : string) :
  String.length (s ++ t) = String.length s + String.length t.
Proof. induction s as [|c s IH]; [done|]. rewrite string_app_cons. simpl. by rewrite IH. Qed.

Lemma prefix_app (s t : string) : String.prefix s (s ++ t) = true.
Proof.
  induction s as [|c s IH]; [by destruct t|].
  rewrite string_app_cons. simpl. by destruct (ascii_dec c c).
Qed.

(** ** The classifier: both flags, the queries and the probe *)

Lemma check_hybrid_flags text sm dm d :
  use_rag (check_hybrid text sm dm d)
  = (use_rag d || (any_in neighborhoods text && dm)
     || comparison_first text || investment_first text)
  /\ use_search (check_hybrid text sm dm d)
     = (use_search d || (any_in neighborhoods text && dm)
        || (comparison_first text && negb sm) || investment_first text).
Proof.
  unfold check_hybrid, comparison_first, investment_first.
  rewrite first_match_hybrid.
  destruct (use_rag d) eqn:Hr, (use_search d) eqn:Hs,
    (any_in neighborhoods text) eqn:Hn, dm, sm,
    (any_in comparison_keywords text), (any_in investment_keywords text),
    (any_in comprehensive_keywords text); cbn; rewrite ?Hr, ?Hs; split; reflexivity.
Qed.

Lemma check_hybrid_queries text sm dm d :
  rag_query (check_hybrid text sm dm d) = rag_query d
  /\ search_query (check_hybrid text sm dm d) = search_query d.
Proof.
  unfold check_hybrid. rewrite first_match_hybrid.
  destruct (any_in neighborhoods text), dm, sm,
    (any_in comparison_keywords text), (any_in investment_keywords text),
    (any_in comprehensive_keywords text); split; reflexivity.
Qed.

Lemma table_decision_flags user_input :
  let text := lower user_input in
  use_rag (table_decision user_input)
  = (matches_table stable_topics text
     || (any_in neighborhoods text && matches_table dynamic_topics text)
     || comparison_first text || investment_first text)
  /\ use_search (table_decision user_input)
     = (matches_table dynamic_topics text
        || (comparison_first text && negb (matches_table stable_topics text))
        || investment_first text).
Proof.
  cbv zeta. unfold table_decision.
  set (d0 := mkDecision false false user_input user_input "").
  destruct (check_stable_flags (lower user_input) d0) as (Hs1 & Hs2 & Hs3).
  destruct (check_stable (lower user_input) d0) as [sm d1]; cbn [fst snd] in *.
  destruct (check_dynamic_flags user_input (lower user_input) d1) as (Hd1 & Hd2 & Hd3).
  destruct (check_dynamic user_input (lower user_input) d1) as [dm d2]; cbn [fst snd] in *.
  destruct (check_hybrid_flags (lower user_input) sm dm d2) as [Hr Hq].
  rewrite Hr, Hq, Hd2, Hd3, Hs2, Hs3, Hs1, Hd1.
  destruct (matches_table stable_topics (lower user_input)),
    (matches_table dynamic_topics (lower user_input)),
    (any_in neighborhoods (lower user_input)),
    (comparison_first (lower user_input)),
    (investment_first (lower user_input)); split; reflexivity.
Qed.

(** X1.  For every input and probe, the web search is on exactly when a
    dynamic keyword occurs, or comparison is the first hybrid category and
    no stable keyword occurs, or investment is the first hybrid category. *)
Theorem analyze_query_use_search (user_input : string)
    (probe : option RAGRetriever) (w : World) :
  exists d w',
    analyze_query user_input probe w = (inr d, w')
    /\ use_search d
       = (matches_table dynamic_topics (lower user_input)
          || (comparison_first (lower user_input)
              && negb (matches_table stable_topics (lower user_input)))
          || investment_first (lower user_input)).
Proof.
  destruct (analyze_query_flags user_input probe w) as (d & w' & Hrun & _ & Hq).
  destruct (table_decision_flags user_input) as [_ Tq].
  exists d, w'. split; [exact Hrun|]. by rewrite Hq, Tq.
Qed.

(** X2.  For every input and probe, the knowledge base is left out exactly
    when a dynamic keyword occurs and no stable, neighbourhood, comparison
    or investment keyword does. *)
Theorem analyze_query_use_rag (user_input : string)
    (probe : option RAGRetriever) (w : World) :
  exists d w',
    analyze_query user_input probe w = (inr d, w')
    /\ use_rag d
       = negb (matches_table dynamic_topics (lower user_input)
               && negb (matches_table stable_topics (lower user_input))
               && negb (any_in neighborhoods (lower user_input))
               && negb (any_in comparison_keywords (lower user_input))
               && negb (any_in investment_keywords (lower user_input))).
Proof.
  destruct (analyze_query_flags user_input probe w) as (d & w' & Hrun & Hr & _).
  destruct (table_decision_flags user_input) as [Tr Tq].
  exists d, w'. split; [exact Hrun|]. rewrite Hr, Tr, Tq.
  unfold comparison_first, investment_first.
  destruct (matches_table stable_topics (lower user_input)),
    (matches_table dynamic_topics (lower user_input)),
    (any_in neighborhoods (lower user_input)),
    (any_in comparison_keywords (lower user_input)),
    (any_in investment_keywords (lower user_input)); reflexivity.
Qed.

(** X3.  The rule of the comprehensive category never fires: it asks for a
    neighbourhood name, and with one in the text the neighbourhood category
    would have matched first.  When comprehensive is the first hybrid
    category that matches, the hybrid stage returns the decision as it got
    it. *)
Theorem comprehensive_rule_never_fires (text : string) (sm dm : bool) (d : Decision) :
  first_match hybrid_topics text = Some "comprehensive" ->
  any_in neighborhoods text = false /\ check_hybrid text sm dm d = d.
Proof.
  rewrite first_match_hybrid. unfold check_hybrid. rewrite first_match_hybrid.
  destruct (any_in neighborhoods text); [discriminate|].
  destruct (any_in comparison_keywords text); [discriminate|].
  destruct (any_in investment_keywords text); [discriminate|].
  destruct (any_in comprehensive_keywords text); [|discriminate].
  intros _. split; reflexivity.
Qed.

Lemma comprehensive_rule_never_fires_witness :
  any_in neighborhoods "give me an overview" = false
  /\ check_hybrid "give me an overview" false true
       (mkDecision false true "q" "q" "") = mkDecision false true "q" "q" "".
Proof.
  apply (comprehensive_rule_never_fires "give me an overview" false true).
  vm_compute. reflexivity.
Defined.

Lemma check_stable_queries text d :
  rag_query (snd (check_stable text d)) = rag_query d
  /\ search_query (snd (check_stable text d)) = search_query d.
Proof. unfold check_stable. by destruct (first_match stable_topics text). Qed.

Lemma check_dynamic_queries user_input text d :
  search_query d = user_input ->
  rag_query (snd (check_dynamic user_input text d)) = rag_query d
  /\ search_query (snd (check_dynamic user_input text d))
     = user_input ++ search_suffix text.
Proof.
  intros Hq. unfold check_dynamic, search_suffix.
  destruct (first_match dynamic_topics text) as [c|]; simpl.
  - destruct (String.eqb c "market"); [done|].
    destruct (String.eqb c "availability"); [done|]. simpl.
    split; [done|]. by rewrite Hq, string_app_nil_r.
  - split; [done|]. by rewrite Hq, string_app_nil_r.
Qed.

Lemma default_decision_queries user_input probe d w :
  exists d' w',
    default_decision user_input probe d w = (inr d', w')
    /\ rag_query d' = rag_query d /\ search_query d' = search_query d.
Proof.
  unfold default_decision.
  destruct (negb (use_rag d) && negb (use_search d)); [|by eexists _, _].
  destruct probe as [retriever|]; [|by eexists _, _].
  destruct (retrieve_returns retriever user_input 1 w) as (hits & w' & Hret).
  rewrite (run_bind _ _ _ _ _ Hret).
  destruct hits as [|top hits]; [by eexists _, _|].
  destruct (PrimFloat.ltb threshold (relevance_score top)); by eexists _, _.
Qed.

(** X4.  The queries are never rewritten destructively: the knowledge-base
    query is the input itself, and the search query is the input followed by
    the qualifier of the first dynamic category that matches (the year and
    domain for market, the listing service for availability, nothing
    otherwise). *)
Theorem analyze_query_queries (user_input : string)
    (probe : option RAGRetriever) (w : World) :
  exists d w',
    analyze_query user_input probe w = (inr d, w')
    /\ rag_query d = user_input
    /\ search_query d = user_input ++ search_suffix (lower user_input)
    /\ String.prefix user_input (search_query d) = true
    /\ In (search_suffix (lower user_input))
          [""; " 2024 real estate Miami"; " MLS listings"].
Proof.
  destruct (default_decision_queries user_input probe (table_decision user_input) w)
    as (d & w' & Hrun & Hr & Hq).
  exists d, w'. split; [exact Hrun|].
  assert (Ht : rag_query (table_decision user_input) = user_input
               /\ search_query (table_decision user_input)
                  = user_input ++ search_suffix (lower user_input)).
  { unfold table_decision.
    set (d0 := mkDecision false false user_input user_input "").
    destruct (check_stable_queries (lower user_input) d0) as [Hs1 Hs2].
    destruct (check_stable (lower user_input) d0) as [sm d1]; cbn [fst snd] in *.
    destruct (check_dynamic_queries user_input (lower user_input) d1 Hs2) as [Hd1 Hd2].
    destruct (check_dynamic user_input (lower user_input) d1) as [dm d2]; cbn [fst snd] in *.
    destruct (check_hybrid_queries (lower user_input) sm dm d2) as [-> ->].
    split; [by rewrite Hd1, Hs1 | exact Hd2]. }
  destruct Ht as [Tr Tq]. rewrite Hr, Hq, Tr, Tq.
  split; [done|]. split; [done|]. split.
  - apply prefix_app.
  - unfold search_suffix. destruct (first_match dynamic_topics (lower user_input)) as [c|];
      simpl; [|by left].
    destruct (String.eqb c "market"); [right; by left|].
    destruct (String.eqb c "availability"); [right; right; by left | by left].
Qed.

(** X5.  The probe is consulted only when no rule has set a flag: as soon
    as a stable or dynamic keyword occurs, or comparison or investment is
    the first hybrid category, [analyze_query] returns the decision of the
    tables and does nothing to the world, whatever the probe. *)
Theorem analyze_query_without_probe (user_input : string)
    (probe : option RAGRetriever) (w : World) :
  (matches_table stable_topics (lower user_input)
   || matches_table dynamic_topics (lower user_input)
   || comparison_first (lower user_input)
   || investment_first (lower user_input)) = true ->
  analyze_query user_input probe w = (inr (table_decision user_input), w).
Proof.
  intros H. unfold analyze_query, default_decision.
  destruct (table_decision_flags user_input) as [Tr Tq]. cbv zeta in Tr, Tq.
  rewrite Tr, Tq.
  destruct (matches_table stable_topics (lower user_input)),
    (matches_table dynamic_topics (lower user_input)),
    (any_in neighborhoods (lower user_input)),
    (comparison_first (lower user_input)),
    (investment_first (lower user_input)); try discriminate; reflexivity.
Qed.

Lemma analyze_query_without_probe_witness :
  analyze_query rates_query (Some one_hit_retriever) empty_world
  = (inr (table_decision rates_query), empty_world).
Proof.
  apply (analyze_query_without_probe rates_query (Some one_hit_retriever) empty_world).
  vm_compute. reflexivity.
Defined.

(** ** The retriever: failures, scores and budgets that suffice *)

(** X6.  [retrieve] turns every failure into an empty result: without a
    vector store it returns the empty list and does nothing; when the store
    raises, it returns the empty list after the search and one printed line
    that carries the text of the exception. *)
Theorem retrieve_failure (self : RAGRetriever) (query : string) (k : nat) (w : World) :
  (vectorstore self = None -> retrieve self query k w = (inr [], w))
  /\ (forall store e,
        vectorstore self = Some store ->
        similarity_search_with_score store (log w) query k = inl e ->
        retrieve self query k w
        = (inr [],
           mkWorld (files w) (ticks w)
             (log w ++ [EvSimilaritySearch query k;
                        EvPrint ("Retrieval error: " ++ exn_str e)]))).
Proof.
  split.
  - intros H. unfold retrieve. by rewrite H.
  - intros store e Hs He. unfold retrieve. rewrite Hs.
    unfold try_except, bind, history, print, emit, modify, lift, ret.
    cbn [log files ticks]. rewrite He. cbn [log files ticks].
    by rewrite <- app_assoc.
Qed.

Lemma format_results_spec results :
  format_results results
  = if forallb denominator_nonzero results then inr (map hit_of results)
    else inl (Exception "float division by zero").
Proof.
  induction results as [|[doc score] results IH]; [reflexivity|].
  cbn [format_results forallb map]. unfold denominator_nonzero at 1. cbn [snd].
  destruct (PrimFloat.eqb (1 + score) 0); cbn [negb andb]; [reflexivity|].
  rewrite IH. by destruct (forallb denominator_nonzero results).
Qed.

(** X7.  When the store answers, [retrieve] returns one hit per result, in
    order, with the text and metadata of the chunk and the relevance
    [1 / (1 + distance)]; unless some distance makes the denominator zero,
    in which case the division raises and every result is lost: the list
    is empty. *)
Theorem retrieve_success (self : RAGRetriever) (store : Chroma) (query : string)
    (k : nat) (w : World) (results : list (Doc.t * float)) :
  vectorstore self = Some store ->
  similarity_search_with_score store (log w) query k = inr results ->
  exists w',
    retrieve self query k w
    = (inr (if forallb denominator_nonzero results then map hit_of results else []), w')
    /\ log_only w w'
    /\ (forallb denominator_nonzero results = true ->
        log w' = (log w ++ [EvSimilaritySearch query k])%list).
Proof.
  intros Hs Hr. unfold retrieve. rewrite Hs.
  unfold try_except, bind, history, print, emit, modify, lift, ret.
  cbn [log files ticks]. rewrite Hr, format_results_spec. cbn [log files ticks].
  destruct (forallb denominator_nonzero results); eexists; (split; [reflexivity|]);
    split; try done.
Qed.

Lemma retrieve_success_witness :
  exists w',
    retrieve one_hit_retriever "q" 5 empty_world
    = (inr (if forallb denominator_nonzero [(Doc.mk "abcd" ∅, 0.5%float)]
            then map hit_of [(Doc.mk "abcd" ∅, 0.5%float)] else []), w')
    /\ log_only empty_world w'
    /\ (forallb denominator_nonzero [(Doc.mk "abcd" ∅, 0.5%float)] = true ->
        log w' = (log empty_world ++ [EvSimilaritySearch "q" 5])%list).
Proof.
  apply (retrieve_success one_hit_retriever one_hit_store "q" 5 empty_world);
    reflexivity.
Defined.

Lemma sum_tokens_app (l1 l2 : list Hit) :
  sum_tokens (l1 ++ l2) = (sum_tokens l1 + sum_tokens l2)%Z.
Proof. induction l1 as [|h l1 IH]; simpl; [done|]. rewrite IH. lia. Qed.

(** X8.  When the content token counts of all the hits add up to at most
    the budget, [get_context] leaves none out: it returns the tagged texts
    of all of them, in order, joined by the separator. *)
Theorem get_context_all_fit (self : RAGRetriever) (query : string) (max_tokens : Z)
    (w w1 : World) (hits : list Hit) :
  retrieve self query 5 w = (inr hits, w1) ->
  (sum_tokens hits <= max_tokens)%Z ->
  get_context self query max_tokens w
  = (inr (join separator (map tagged hits)), w1).
Proof.
  intros Hret Hsum.
  pose proof (sum_tokens_nonneg hits) as Hpos.
  destruct (get_context_loop_prefix hits max_tokens 0 [] ltac:(lia))
    as (inc & drop & Hsplit & Hloop & _ & Hnext).
  assert (drop = []) as ->.
  { destruct drop as [|next rest]; [done|]. exfalso.
    specialize (Hnext next rest eq_refl).
    rewrite Hsplit, sum_tokens_app in Hsum. simpl in Hsum.
    pose proof (sum_tokens_nonneg rest). lia. }
  rewrite app_nil_r in Hsplit. subst inc.
  unfold get_context. rewrite (run_bind _ _ _ _ _ Hret).
  destruct hits; [reflexivity|]. by rewrite Hloop.
Qed.

Lemma get_context_all_fit_witness :
  get_context one_hit_retriever "q" 2000 empty_world
  = (inr (join separator (map tagged [hit_of (Doc.mk "abcd" ∅, 0.5%float)])),
     mkWorld ∅ 0 [EvSimilaritySearch "q" 5]).
Proof.
  apply (get_context_all_fit one_hit_retriever "q" 2000 empty_world); [reflexivity|].
  vm_compute. discriminate.
Defined.

(** X9.  A retrieval that fails costs the turn nothing but the context:
    without a vector store, or when the store raises, [get_context] returns
    the empty string, raises nothing, and changes nothing but the log. *)
Theorem get_context_failure (self : RAGRetriever) (query : string) (max_tokens : Z)
    (w : World) :
  (vectorstore self = None
   \/ exists store e,
        vectorstore self = Some store
        /\ similarity_search_with_score store (log w) query 5 = inl e) ->
  exists w', get_context self query max_tokens w = (inr "", w') /\ log_only w w'.
Proof.
  destruct (retrieve_failure self query 5 w) as [Hnone Hraise].
  intros [H | (store & e & Hs & He)]; unfold get_context.
  - rewrite (run_bind _ _ _ _ _ (Hnone H)). by exists w.
  - rewrite (run_bind _ _ _ _ _ (Hraise store e Hs He)). by eexists.
Qed.

Lemma get_context_failure_witness :
  exists w',
    get_context {| vectorstore := Some failing_store |} "q" 2000 empty_world
    = (inr "", w')
    /\ log_only empty_world w'.
Proof.
  apply (get_context_failure {| vectorstore := Some failing_store |} "q" 2000 empty_world).
  right. exists failing_store, (Exception "index unavailable"). split; reflexivity.
Defined.

(** ** The web search: failures, formatting and the location *)

(** X10.  A failed request does not fail the search: when [requests]
    raises a [RequestException], [_perform_search] returns a dictionary that
    only holds the error text, which [_format_search_results] turns into
    the empty string.  Any other exception of the call is not caught and
    leaves [_perform_search] as it is; a response is returned as it is.
    In each case the only effect is the one request, with the context's
    location when that is a true value. *)
Theorem perform_search_outcome (P : Platform) (self : System) (query : string)
    (w : World) :
  let tool := search_tool self in
  let location := payload_location (json_context self) in
  let answer := requests_post P (log w) (base_url tool) (api_key tool) query 5 location in
  let w' := mkWorld (files w) (ticks w)
              (log w ++ [EvPost (base_url tool) query 5 location]) in
  (forall msg, answer = inl (RequestException msg) ->
     _perform_search P self query w = (inr (JObj [("error", JStr msg)]), w')
     /\ forall h, _format_search_results P h (JObj [("error", JStr msg)]) = inr "")
  /\ (forall msg, answer = inl (Exception msg) ->
        _perform_search P self query w = (inl (Exception msg), w'))
  /\ (forall results, answer = inr results ->
        _perform_search P self query w = (inr results, w')).
Proof.
  cbv zeta. unfold _perform_search, search, payload_location.
  unfold try_except, bind, history, emit, modify, lift, ret, raise.
  cbn [log files ticks].
  split; [|split]; intros ? H; rewrite H; [split|..]; reflexivity.
Qed.

Lemma py_in_member key m :
  py_in key (JObj m) = inr (match member m key with Some _ => true | None => false end).
Proof.
  unfold py_in. f_equal. induction m as [|[k v] m IH]; [done|].
  cbn [existsb member fst]. by destruct (String.eqb k key).
Qed.

(** What [_format_search_results] makes of a dictionary. *)
Lemma format_search_results_dict P h m :
  _format_search_results P h (JObj m)
  = match member m "error", member m "organic" with
    | Some _, _ => inr ""
    | None, None => inr ""
    | None, Some organic =>
        match first_three organic with
        | inl e => inl e
        | inr results =>
            match format_results_loop P h results with
            | inl e => inl e
            | inr formatted_results => inr (join nl formatted_results)
            end
        end
    end.
Proof.
  unfold _format_search_results. rewrite !py_in_member. unfold py_index.
  destruct (member m "error"); [done|]. by destruct (member m "organic").
Qed.

(** X11.  [_format_search_results] gives the empty string for a dictionary
    with an error key, whatever else it holds, and for one with neither
    that key nor organic results; and of a list of organic results it uses
    the first three only: anything after the third changes nothing, well
    formed or not. *)
Theorem format_search_results_edges (P : Platform) (h : list Event)
    (m m' : list (string * json)) (results more : list json) :
  3 <= length results ->
  (member m "error" <> None -> _format_search_results P h (JObj m) = inr "")
  /\ (member m "error" = None -> member m "organic" = None ->
      _format_search_results P h (JObj m) = inr "")
  /\ (member m "error" = None -> member m' "error" = None ->
      member m "organic" = Some (JArr (results ++ more)) ->
      member m' "organic" = Some (JArr results) ->
      _format_search_results P h (JObj m) = _format_search_results P h (JObj m')).
Proof.
  intros Hlen. rewrite !format_search_results_dict.
  split; [|split].
  - by destruct (member m "error").
  - by intros -> ->.
  - intros -> -> -> ->. cbn [first_three].
    rewrite firstn_app. replace (3 - length results) with 0 by lia.
    by rewrite firstn_O, app_nil_r.
Qed.

Lemma format_search_results_edges_witness :
  let r := JObj [("title", JStr "Rates"); ("snippet", JStr "Up")] in
  let m := [("organic", JArr ([r; r; r] ++ [JNull; r]))] in
  let m' := [("organic", JArr [r; r; r])] in
  (member m "error" <> None -> _format_search_results test_platform [] (JObj m) = inr "")
  /\ (member m "error" = None -> member m "organic" = None ->
      _format_search_results test_platform [] (JObj m) = inr "")
  /\ (member m "error" = None -> member m' "error" = None ->
      member m "organic" = Some (JArr ([r; r; r] ++ [JNull; r])) ->
      member m' "organic" = Some (JArr [r; r; r]) ->
      _format_search_results test_platform [] (JObj m)
      = _format_search_results test_platform [] (JObj m')).
Proof.
  cbv zeta.
  apply (format_search_results_edges test_platform []
           [("organic",
             JArr ([JObj [("title", JStr "Rates"); ("snippet", JStr "Up")];
                    JObj [("title", JStr "Rates"); ("snippet", JStr "Up")];
                    JObj [("title", JStr "Rates"); ("snippet", JStr "Up")]]
                   ++ [JNull; JObj [("title", JStr "Rates"); ("snippet", JStr "Up")]]))]
           [("organic",
             JArr [JObj [("title", JStr "Rates"); ("snippet", JStr "Up")];
                   JObj [("title", JStr "Rates"); ("snippet", JStr "Up")];
                   JObj [("title", JStr "Rates"); ("snippet", JStr "Up")]])]
           [JObj [("title", JStr "Rates"); ("snippet", JStr "Up")];
            JObj [("title", JStr "Rates"); ("snippet", JStr "Up")];
            JObj [("title", JStr "Rates"); ("snippet", JStr "Up")]]).
  simpl. lia.
Defined.

(** X12.  Adding the location to a search query never removes anything and
    never adds it twice: the result starts with the query, contains the
    location when the context has a true string one, and is left alone when
    the location is added to it again. *)
Theorem with_location_idempotent (context : pydict) (search_query query' : string) :
  with_location context search_query = inr query' ->
  String.prefix search_query query' = true
  /\ with_location context query' = inr query'
  /\ (forall l, dict_get context "location" = Some (PyStr l) -> l <> "" ->
      contains l query' = true).
Proof.
  unfold with_location.
  destruct (dict_get context "location") as [v|] eqn:Hget.
  2:{ intros [= <-]. split; [|split; [done|discriminate]].
      rewrite <- (string_app_nil_r search_query) at 2. apply prefix_app. }
  destruct (truthy v) eqn:Ht.
  2:{ intros [= <-]. split; [|split; [done|]].
      - rewrite <- (string_app_nil_r search_query) at 2. apply prefix_app.
      - intros l [= ->] Hne. by destruct l. }
  destruct v as [ | | | |l| | | | ]; try discriminate.
  destruct (contains l search_query) eqn:Hc; intros [= <-].
  - rewrite Hc. split; [|split; [done|by intros ? [= <-]]].
    rewrite <- (string_app_nil_r search_query) at 2. apply prefix_app.
  - assert (Hin : contains l (search_query ++ " " ++ l) = true)
      by (do 2 apply contains_append_r; apply contains_self).
    rewrite Hin. split; [apply prefix_app|]. split; [done|by intros ? [= <-]].
Qed.

Lemma with_location_idempotent_witness :
  String.prefix "mortgage rates" "mortgage rates Miami-Dade County, FL" = true
  /\ with_location miami_context "mortgage rates Miami-Dade County, FL"
     = inr "mortgage rates Miami-Dade County, FL"
  /\ (forall l, dict_get miami_context "location" = Some (PyStr l) -> l <> "" ->
      contains l "mortgage rates Miami-Dade County, FL" = true).
Proof.
  apply (with_location_idempotent miami_context "mortgage rates"). reflexivity.
Defined.

(** ** The context map *)

Lemma dict_get_set (d : pydict) (key key' : string) (v : pyval) :
  dict_get (dict_set d key v) key'
  = if String.eqb key key' then Some v else dict_get d key'.
Proof.
  induction d as [|[k v0] d IH]; simpl.
  - by destruct (String.eqb key key').
  - destruct (String.eqb k key) eqn:Hk; simpl.
    + apply String.eqb_eq in Hk as ->. by destruct (String.eqb key key').
    + destruct (String.eqb k key') eqn:Hk'; [|exact IH].
      apply String.eqb_eq in Hk' as ->. by rewrite String.eqb_sym, Hk.
Qed.

Lemma keys_dict_set (d : pydict) (key : string) (v : pyval) :
  keys (dict_set d key v)
  = if existsb (String.eqb key) (keys d) then keys d else (keys d ++ [key])%list.
Proof.
  unfold keys. induction d as [|[k v0] d IH]; simpl; [done|].
  rewrite (String.eqb_sym key k).
  destruct (String.eqb k key) eqn:Hk; simpl; [done|].
  rewrite IH. by destruct (existsb (String.eqb key) (map fst d)).
Qed.

Lemma NoDup_keys_dict_set (d : pydict) (key : string) (v : pyval) :
  NoDup (keys d) -> NoDup (keys (dict_set d key v)).
Proof.
  intros H. rewrite keys_dict_set.
  destruct (existsb (String.eqb key) (keys d)) eqn:He; [done|].
  apply NoDup_app. split; [done|]. split; [|apply NoDup_singleton].
  intros x Hx ->%list_elem_of_singleton.
  assert (existsb (String.eqb key) (keys d) = true); [|congruence].
  apply existsb_exists. exists key. split; [by apply list_elem_of_In | apply String.eqb_refl].
Qed.

(** X13.  [update_property_context] behaves as a dictionary update: a key
    of the new data then has its (last) new value, every other key keeps its
    value, the keys stay distinct, and the conversation memory and the
    session file are untouched. *)
Theorem update_property_context_lookup (self : System) (context_data : pydict)
    (key : string) :
  let self' := update_property_context self context_data in
  dict_get (json_context self') key
  = match dict_get (rev context_data) key with
    | Some v => Some v
    | None => dict_get (json_context self) key
    end
  /\ (NoDup (keys (json_context self)) -> NoDup (keys (json_context self')))
  /\ conversation_memory self' = conversation_memory self
  /\ session_file self' = session_file self.
Proof.
  cbv zeta. unfold update_property_context, dict_update. cbn [json_context set_context
    conversation_memory session_file].
  split; [|split; [|done]].
  - generalize (json_context self) as d.
    induction context_data as [|[k v] other IH] using rev_ind; intros d; [done|].
    rewrite fold_left_app, rev_app_distr. cbn [fold_left rev app fst snd dict_get].
    rewrite dict_get_set. destruct (String.eqb k key); [done | apply IH].
  - generalize (json_context self) as d.
    induction context_data as [|[k v] other IH]; intros d Hd; [done|].
    cbn [fold_left fst snd]. apply IH. by apply NoDup_keys_dict_set.
Qed.

(** ** Effects of the parts of a turn *)

Lemma no_file_access_refl w : no_file_access w w.
Proof. split; [done|]. exists []. by rewrite app_nil_r. Qed.

Lemma no_file_access_trans w1 w2 w3 :
  no_file_access w1 w2 -> no_file_access w2 w3 -> no_file_access w1 w3.
Proof.
  intros [[Hf1 Ht1] (ev1 & Hl1 & Hq1)] [[Hf2 Ht2] (ev2 & Hl2 & Hq2)].
  split; [split; congruence|]. exists (ev1 ++ ev2)%list.
  split; [by rewrite Hl2, Hl1, app_assoc|]. rewrite forallb_app. by rewrite Hq1, Hq2.
Qed.

Lemma respects_ret {A} (a : A) : respects no_file_access (ret a).
Proof. intros w r w' [= <- <-]. apply no_file_access_refl. Qed.

Lemma respects_raise {A} (e : exn) : respects no_file_access (@raise World A e).
Proof. intros w r w' [= <- <-]. apply no_file_access_refl. Qed.

Lemma respects_lift {A} (x : exn + A) : respects no_file_access (lift x).
Proof. intros w r w' [= <- <-]. apply no_file_access_refl. Qed.

Lemma respects_history : respects no_file_access history.
Proof. intros w r w' [= <- <-]. apply no_file_access_refl. Qed.

Lemma respects_emit ev :
  is_open_write ev = false -> is_generate ev = false ->
  respects no_file_access (emit ev).
Proof.
  intros Ho Hg w r w' [= <- <-]. split; [done|]. exists [ev]. split; [done|].
  simpl. by rewrite Ho, Hg.
Qed.

Lemma respects_print text : respects no_file_access (print text).
Proof. by apply respects_emit. Qed.

Lemma respects_bind {A B} (m : M World A) (f : A -> M World B) :
  respects no_file_access m -> (forall a, respects no_file_access (f a)) ->
  respects no_file_access (bind m f).
Proof.
  intros Hm Hf w r w'. unfold bind.
  destruct (m w) as [[e|a] w1] eqn:E.
  - intros [= <- <-]. by eapply Hm.
  - intros H. eapply no_file_access_trans; [by eapply Hm | by eapply Hf].
Qed.

Lemma respects_try_except {A} (m : M World A) (h : exn -> M World A) :
  respects no_file_access m -> (forall e, respects no_file_access (h e)) ->
  respects no_file_access (try_except m h).
Proof.
  intros Hm Hh w r w'. unfold try_except.
  destruct (m w) as [[e|a] w1] eqn:E.
  - intros H. eapply no_file_access_trans; [by eapply Hm | by eapply Hh].
  - intros [= <- <-]. by eapply Hm.
Qed.

Create HintDb effects.

#[local] Hint Resolve respects_ret respects_raise respects_lift respects_history
  respects_print : effects.

Ltac effects :=
  repeat first
    [ apply respects_bind; [|intros ?]
    | apply respects_try_except; [|intros ?]
    | apply respects_emit; [reflexivity | reflexivity]
    | solve [auto with effects]
    | match goal with
      | |- respects _ (if ?b then _ else _) => destruct b
      | |- respects _ (match ?x with _ => _ end) => destruct x
      end ].

Lemma respects_retrieve self query k : respects no_file_access (retrieve self query k).
Proof. unfold retrieve. effects. Qed.

Lemma respects_get_context self query max_tokens :
  respects no_file_access (get_context self query max_tokens).
Proof. unfold get_context. apply respects_bind; [apply respects_retrieve|]. intros ?. effects. Qed.

Lemma respects_analyze_query user_input probe :
  respects no_file_access (analyze_query user_input probe).
Proof.
  unfold analyze_query, default_decision.
  destruct (negb _ && negb _); [|effects].
  destruct probe; [|effects].
  apply respects_bind; [apply respects_retrieve|]. intros ?. effects.
Qed.

Lemma respects_perform_search P self query :
  respects no_file_access (_perform_search P self query).
Proof. unfold _perform_search, search. effects. Qed.

Lemma respects_json_dumps P v : respects no_file_access (json_dumps P v).
Proof. unfold json_dumps. effects. Qed.

#[local] Hint Resolve respects_retrieve respects_get_context respects_analyze_query
  respects_perform_search respects_json_dumps : effects.

Lemma get_context_returns self query max_tokens w :
  exists text w', get_context self query max_tokens w = (inr text, w').
Proof.
  destruct (retrieve_returns self query 5 w) as (hits & w1 & Hret).
  unfold get_context. rewrite (run_bind _ _ _ _ _ Hret). destruct hits; by eexists _, _.
Qed.

(** ** The turn *)

Lemma lstrip_all_space s : all_space s = true -> lstrip s = "".
Proof.
  induction s as [|c s IH]; simpl; [done|].
  destruct (isspace c); [exact IH | discriminate].
Qed.

(** X14.  An input that is empty or all white space gets the fixed request
    for a question, and nothing else happens: no collaborator is called,
    nothing is printed or saved, and the memory is as it was. *)
Theorem chat_blank_input (P : Platform) (self : System) (user_input : string)
    (w : World) :
  all_space user_input = true ->
  chat P self user_input w = (inr (prompt_for_input, self), w).
Proof.
  intros H. unfold chat, strip. by rewrite (lstrip_all_space _ H).
Qed.

Lemma chat_blank_input_witness :
  chat test_platform (test_system echo_model []) "   " empty_world
  = (inr (prompt_for_input, test_system echo_model []), empty_world).
Proof.
  apply (chat_blank_input test_platform (test_system echo_model []) "   " empty_world).
  reflexivity.
Defined.

Lemma bind_inv {S A B} (m : M S A) (f : A -> M S B) (s s' : S) (r : exn + B) :
  bind m f s = (r, s') ->
  (exists e, m s = (inl e, s') /\ r = inl e)
  \/ (exists a s1, m s = (inr a, s1) /\ f a s1 = (r, s')).
Proof.
  unfold bind. destruct (m s) as [[e|a] s1].
  - intros [= <- <-]. left. by exists e.
  - intros H. right. by exists a, s1.
Qed.

(** The steps of [answer] before the language model is asked: the
    decision, its printed line, the two contexts and the text of the
    context map. *)
Ltac prefix_step H Hacc :=
  match type of H with
  | bind ?m _ _ = _ =>
      let Hr := fresh "Hr" in
      let Hm := fresh "Hm" in
      assert (Hr : respects no_file_access m) by effects;
      apply bind_inv in H as [(? & Hm & ->) | (? & ? & Hm & H)];
      pose proof (no_file_access_trans _ _ _ Hacc (Hr _ _ _ Hm));
      clear Hr Hm Hacc
  end.

(** What a run of [answer] comes to: the steps before the model neither
    read the clock nor touch a file nor ask the model; then either one of
    them has raised, or the model is asked once and raises, or it answers
    and the exchange is recorded with the time read then. *)
Lemma answer_outcome P self user_input w r w' :
  answer P self user_input w = (r, w') ->
  exists w5,
    no_file_access w w5
    /\ ((exists e, r = inl e /\ w' = w5)
        \/ (exists prompt e,
              r = inl e
              /\ generate_content (real_estate_model self) (log w5) prompt = inl e
              /\ w' = mkWorld (files w5) (ticks w5) (log w5 ++ [EvGenerate prompt]))
        \/ (exists prompt reply sources_used,
              r = inr (reply,
                       set_memory self
                         (last_n 20 (conversation_memory self
                                     ++ [mkExchange user_input reply
                                           (time_time P (ticks w)) sources_used])))
              /\ generate_content (real_estate_model self) (log w5) prompt = inr reply
              /\ w' = mkWorld (files w5) (S (ticks w5))
                        (log w5 ++ [EvGenerate prompt]))).
Proof.
  unfold answer. intros H. pose proof (no_file_access_refl w) as Hacc.
  prefix_step H Hacc; [eexists; split; [eassumption|]; left; by eexists|]. rename H0 into Hacc.
  prefix_step H Hacc; [eexists; split; [eassumption|]; left; by eexists|]. rename H0 into Hacc.
  prefix_step H Hacc; [eexists; split; [eassumption|]; left; by eexists|]. rename H0 into Hacc.
  prefix_step H Hacc; [eexists; split; [eassumption|]; left; by eexists|]. rename H0 into Hacc.
  prefix_step H Hacc; [eexists; split; [eassumption|]; left; by eexists|]. rename H0 into Hacc.
  match type of Hacc with no_file_access _ ?w5 => exists w5 end.
  split; [exact Hacc|]. right.
  unfold bind at 1 in H. unfold history in H.
  unfold bind at 1 in H. unfold emit, modify in H.
  unfold bind at 1 in H. unfold lift at 1 in H. cbn [log files ticks] in H.
  match type of H with context [generate_content ?m ?h ?p] =>
    destruct (generate_content m h p) as [e|reply] eqn:Hgen end.
  - injection H as <- <-. left. by eexists _, _.
  - unfold bind in H. rewrite add_to_memory_spec in H. unfold ret in H.
    cbn [log files ticks] in H. injection H as <- <-. right.
    destruct Hacc as [[_ Hticks] _]. rewrite Hticks. by eexists _, _, _.
Qed.

Lemma no_file_access_events w w' :
  no_file_access w w' ->
  files w' = files w /\ ticks w' = ticks w
  /\ exists events,
       log w' = (log w ++ events)%list
       /\ forallb (fun ev => negb (is_open_write ev)) events = true
       /\ filter is_generate events = [].
Proof.
  intros [[Hf Ht] (events & Hl & Hq)]. split; [done|]. split; [done|].
  exists events. split; [done|]. clear Hl.
  induction events as [|ev events IH]; [done|].
  simpl in Hq. apply andb_true_iff in Hq as [Hev Hq].
  apply andb_true_iff in Hev as [Ho Hg]. destruct (IH Hq) as [IH1 IH2].
  split; [simpl; by rewrite Ho, IH1|].
  rewrite filter_cons. destruct (decide (is_generate ev)) as [Hd|Hd]; [|exact IH2].
  destruct (is_generate ev); [discriminate | done].
Qed.

Lemma generate_event_split (events pre rest tail : list Event) (prompt : string) :
  forallb (fun ev => negb (is_open_write ev) && negb (is_generate ev)) events = true ->
  (pre ++ EvGenerate prompt :: rest = events ++ tail)%list ->
  exists k, pre = (events ++ k)%list /\ tail = (k ++ EvGenerate prompt :: rest)%list.
Proof.
  revert pre. induction events as [|ev events IH]; intros pre Hq Heq.
  - exists pre. by rewrite Heq.
  - cbn [forallb] in Hq. apply andb_true_iff in Hq as [Hev Hq].
    destruct pre as [|x pre].
    + injection Heq as <- _. by rewrite andb_false_r in Hev.
    + injection Heq as -> Heq. destruct (IH pre Hq Heq) as (k & -> & ->). by exists k.
Qed.

(** C6.  For every input and every behaviour of the retriever, the web
    search and the language model, exceptions included, [chat] returns a
    reply and raises nothing.  The reply is one of the three fixed replies
    or a text the language model returned.  When the call [chat] makes to
    the language model on this turn fails, the reply is the fixed apology
    and the system is unchanged; when it answers, the reply is that answer.
    In particular a model that always fails gives the apology on every
    input that is neither blank nor an exit keyword. *)
Theorem chat_always_replies (P : Platform) (self : System) (user_input : string)
    (w : World) :
  exists reply self' w',
    chat P self user_input w = (inr (reply, self'), w')
    /\ (reply = prompt_for_input \/ reply = farewell \/ reply = apology
        \/ exists h prompt,
             generate_content (real_estate_model self) h prompt = inr reply
             /\ In (EvGenerate prompt) (log w'))
    /\ (forall pre prompt rest,
          log w' = (log w ++ pre ++ EvGenerate prompt :: rest)%list ->
          match generate_content (real_estate_model self) (log w ++ pre) prompt with
          | inl e => reply = apology /\ self' = self
          | inr text => reply = text
          end)
    /\ (strip user_input <> "" ->
        ~ In (lower (strip user_input)) exit_commands ->
        (forall h prompt,
            exists e, generate_content (real_estate_model self) h prompt = inl e) ->
        reply = apology /\ self' = self).
Proof.
  unfold chat.
  destruct (nonempty (strip user_input)) eqn:Hne; cbn [negb].
  2:{ exists prompt_for_input, self, w. split; [reflexivity|]. split; [by left|]. split.
      - intros pre prompt rest Hlog. exfalso.
        rewrite <- (app_nil_r (log w)) in Hlog at 1.
        apply app_inv_head in Hlog. by destruct pre.
      - intros Hs. destruct (strip user_input); [done | discriminate]. }
  destruct (existsb (String.eqb (lower (strip user_input))) exit_commands) eqn:Hexit.
  { exists farewell, self. eexists.
    rewrite (run_bind _ _ _ _ _ (auto_save_spec P self w)).
    split; [reflexivity|]. split; [by right; left|]. split.
    - cbn [log]. intros pre prompt rest Hlog. exfalso.
      apply app_inv_head in Hlog. destruct pre as [|x [|y pre]]; discriminate.
    - intros _ Hnot. exfalso. apply Hnot.
      apply existsb_exists in Hexit as (k & Hin & Heq).
      apply String.eqb_eq in Heq. by rewrite Heq. }
  unfold try_except.
  destruct (answer P self (strip user_input) w) as [r w1] eqn:Hans.
  destruct (answer_outcome _ _ _ _ _ _ Hans) as (w5 & Hacc & Hcase).
  destruct Hacc as [_ (events & Hl & Hq)].
  destruct Hcase as [(e & -> & ->) | [(prompt0 & e & -> & Hgen & ->)
                    | (prompt0 & reply & sources_used & -> & Hgen & ->)]].
  - eexists _, _, _. split; [reflexivity|]. split; [by right; right; left|]. split.
    + cbn [log]. intros pre prompt rest Hlog. exfalso.
      rewrite Hl, <- !app_assoc in Hlog. apply app_inv_head in Hlog.
      symmetry in Hlog.
      destruct (generate_event_split _ _ _ _ _ Hq Hlog) as (k & -> & Hk).
      destruct k as [|x k]; [discriminate | destruct k; discriminate].
    + done.
  - eexists _, _, _. split; [reflexivity|]. split; [by right; right; left|]. split.
    + cbn [log]. intros pre prompt rest Hlog.
      rewrite Hl, <- !app_assoc in Hlog. apply app_inv_head in Hlog.
      symmetry in Hlog. cbn [app] in Hlog.
      destruct (generate_event_split _ _ _ _ _ Hq Hlog) as (k & -> & Hk).
      destruct k as [|x [|y k]]; [|destruct rest; discriminate|destruct k; discriminate].
      injection Hk as <- _. rewrite app_nil_r, <- Hl, Hgen. done.
    + done.
  - eexists _, _, _. split; [reflexivity|].
    split; [right; right; right; exists (log w5), prompt0; split; [exact Hgen|];
            cbn [log]; apply in_or_app; right; by left|].
    split.
    + cbn [log]. intros pre prompt rest Hlog.
      rewrite Hl, <- !app_assoc in Hlog. apply app_inv_head in Hlog.
      symmetry in Hlog.
      destruct (generate_event_split _ _ _ _ _ Hq Hlog) as (k & -> & Hk).
      destruct k as [|x k]; [|destruct k; discriminate].
      injection Hk as <- _. rewrite app_nil_r, <- Hl, Hgen. done.
    + intros _ _ Hfail. destruct (Hfail (log w5) prompt0) as [e He]. congruence.
Qed.

Lemma chat_always_replies_witness :
  exists w',
    chat test_platform (test_system silent_model []) "Tell me about Brickell" empty_world
    = (inr (apology, test_system silent_model []), w').
Proof.
  destruct (chat_always_replies test_platform (test_system silent_model [])
              "Tell me about Brickell" empty_world)
    as (reply & self' & w' & Hrun & _ & _ & Hfail).
  destruct Hfail as [-> ->].
  - vm_compute. discriminate.
  - vm_compute. intuition discriminate.
  - intros h prompt. by eexists.
  - by exists w'.
Defined.

(** X15.  On a turn that is not an exit, [chat] returns a reply, opens and
    changes no file (the conversation is saved on exit only), reads the
    clock at most once, and asks the language model at most once. *)
Theorem chat_turn_effects (P : Platform) (self : System) (user_input : string)
    (w : World) :
  ~ In (lower (strip user_input)) exit_commands ->
  exists reply self' w',
    chat P self user_input w = (inr (reply, self'), w')
    /\ files w' = files w
    /\ ticks w <= ticks w' <= S (ticks w)
    /\ exists events,
         log w' = (log w ++ events)%list
         /\ forallb (fun ev => negb (is_open_write ev)) events = true
         /\ length (filter is_generate events) <= 1.
Proof.
  intros Hnot. unfold chat.
  destruct (nonempty (strip user_input)); cbn [negb].
  2:{ exists prompt_for_input, self, w. split; [done|]. split; [done|]. split; [lia|].
      exists []. rewrite app_nil_r. split; [done|]. split; [done|]. simpl. lia. }
  destruct (existsb (String.eqb (lower (strip user_input))) exit_commands) eqn:Hexit.
  { exfalso. apply Hnot. apply existsb_exists in Hexit as (k & Hin & Heq).
    apply String.eqb_eq in Heq. by rewrite Heq. }
  unfold try_except.
  destruct (answer P self (strip user_input) w) as [r w1] eqn:Hans.
  destruct (answer_outcome _ _ _ _ _ _ Hans) as (w5 & Hacc & Hcase).
  apply no_file_access_events in Hacc as (Hf & Ht & events & Hl & Ho & Hg).
  destruct Hcase as [(e & -> & ->) | [(prompt & e & -> & _ & ->)
                    | (prompt & reply & sources_used & -> & _ & ->)]].
  - eexists _, _, _. split; [reflexivity|]. cbn [files ticks log].
    split; [done|]. split; [lia|].
    exists (events ++ [EvPrint ("Error in chat: " ++ exn_str e)])%list.
    rewrite Hl, <- app_assoc. split; [done|].
    rewrite forallb_app, Ho, filter_app, Hg. split; [reflexivity|].
    apply Nat.leb_le. reflexivity.
  - eexists _, _, _. split; [reflexivity|]. cbn [files ticks log].
    split; [done|]. split; [lia|].
    exists (events ++ [EvGenerate prompt; EvPrint ("Error in chat: " ++ exn_str e)])%list.
    rewrite Hl, <- !app_assoc. split; [done|].
    rewrite forallb_app, Ho, filter_app, Hg. split; [reflexivity|].
    apply Nat.leb_le. reflexivity.
  - eexists _, _, _. split; [reflexivity|]. cbn [files ticks log].
    split; [done|]. split; [lia|].
    exists (events ++ [EvGenerate prompt])%list.
    rewrite Hl, <- app_assoc. split; [done|].
    rewrite forallb_app, Ho, filter_app, Hg. split; [reflexivity|].
    apply Nat.leb_le. reflexivity.
Qed.

Lemma chat_turn_effects_witness :
  exists reply self' w',
    chat test_platform (test_system echo_model []) "Hello" empty_world
    = (inr (reply, self'), w')
    /\ files w' = files empty_world
    /\ ticks empty_world <= ticks w' <= S (ticks empty_world)
    /\ exists events,
         log w' = (log empty_world ++ events)%list
         /\ forallb (fun ev => negb (is_open_write ev)) events = true
         /\ length (filter is_generate events) <= 1.
Proof.
  apply (chat_turn_effects test_platform (test_system echo_model []) "Hello" empty_world).
  vm_compute. intros [H|[H|[H|[H|[]]]]]; discriminate.
Defined.

(** X16.  Whatever the input, [chat] returns with the system either
    exactly as it was, or with one more exchange at the end of the memory,
    made of the stripped input and the reply, and the rest untouched.  A
    memory of at most 20 entries stays so. *)
Theorem chat_memory_step (P : Platform) (self : System) (user_input : string)
    (w : World) :
  exists reply self' w',
    chat P self user_input w = (inr (reply, self'), w')
    /\ (self' = self
        \/ exists sources_used,
             self' = set_memory self
                       (last_n 20 (conversation_memory self
                                   ++ [mkExchange (strip user_input) reply
                                         (time_time P (ticks w)) sources_used])))
    /\ json_context self' = json_context self
    /\ session_file self' = session_file self
    /\ (length (conversation_memory self) <= 20 ->
        length (conversation_memory self') <= 20).
Proof.
  unfold chat.
  destruct (nonempty (strip user_input)); cbn [negb].
  2:{ exists prompt_for_input, self, w. split; [done|]. split; [by left|]. done. }
  destruct (existsb (String.eqb (lower (strip user_input))) exit_commands).
  { exists farewell, self. eexists.
    rewrite (run_bind _ _ _ _ _ (auto_save_spec P self w)).
    split; [done|]. split; [by left|]. done. }
  unfold try_except.
  destruct (answer P self (strip user_input) w) as [r w1] eqn:Hans.
  destruct (answer_outcome _ _ _ _ _ _ Hans) as (w5 & _ & Hcase).
  destruct Hcase as [(e & -> & ->) | [(prompt & e & -> & _ & ->)
                    | (prompt & reply & sources_used & -> & _ & ->)]].
  - eexists _, _, _. split; [reflexivity|]. split; [by left|]. done.
  - eexists _, _, _. split; [reflexivity|]. split; [by left|]. done.
  - eexists _, _, _. split; [reflexivity|]. split; [right; by eexists|].
    cbn [json_context session_file conversation_memory set_memory].
    split; [done|]. split; [done|]. intros _. rewrite last_n_length. lia.
Qed.

Lemma perform_search_spec P self query w :
  _perform_search P self query w
  = (match requests_post P (log w) (base_url (search_tool self))
             (api_key (search_tool self)) query 5
             (payload_location (json_context self)) with
     | inl (RequestException msg) => inr (JObj [("error", JStr msg)])
     | inl e => inl e
     | inr results => inr results
     end,
     mkWorld (files w) (ticks w)
       (log w ++ [EvPost (base_url (search_tool self)) query 5
                    (payload_location (json_context self))])).
Proof.
  unfold _perform_search, search, payload_location.
  unfold try_except, bind, history, emit, modify, lift, ret, raise.
  cbn [log files ticks].
  match goal with |- context [requests_post ?a ?b ?c ?d ?e ?f ?g] =>
    destruct (requests_post a b c d e f g) as [[msg|msg]|results] end; reflexivity.
Qed.

Lemma with_location_usable context search_query :
  location_usable context = true ->
  exists query', with_location context search_query = inr query'.
Proof.
  unfold location_usable, with_location.
  destruct (dict_get context "location") as [v|]; [|by eexists].
  destruct (truthy v); [|by eexists]. cbn [negb orb].
  destruct v; try discriminate. by eexists.
Qed.

Lemma json_dumps_spec P v w :
  json_dumps P v w
  = (match dump_encode P (log w) v with
     | Some j => inr (json_text P j)
     | None => inl (Exception "Object is not JSON serializable")
     end, w).
Proof. unfold json_dumps, bind, history. by destruct (dump_encode P (log w) v). Qed.

(** Under the four conditions, nothing before the language model can
    raise: an exception of [answer] is the model's. *)
Lemma answer_raise_is_models P self user_input w e w' :
  (forall h, dump_encode P h (PyDict (json_context self)) <> None) ->
  location_usable (json_context self) = true ->
  (forall h url key q n loc x,
      requests_post P h url key q n loc = inl x -> exists msg, x = RequestException msg) ->
  (forall h url key q n loc results,
      requests_post P h url key q n loc = inr results ->
      forall h', exists text, _format_search_results P h' results = inr text) ->
  answer P self user_input w = (inl e, w') ->
  exists h prompt, generate_content (real_estate_model self) h prompt = inl e.
Proof.
  intros Hdump Hloc Hreq Hform. unfold answer. intros H.
  apply bind_inv in H as [(? & Hm & _) | (d & w1 & _ & H)].
  { destruct (analyze_query_flags user_input (Some (rag_retriever self)) w)
      as (? & ? & Hrun & _). congruence. }
  apply bind_inv in H as [(? & Hm & _) | ([] & w2 & _ & H)]; [discriminate|].
  apply bind_inv in H as [(? & Hm & _) | (rag_context & w3 & _ & H)].
  { destruct (use_rag d); [|discriminate].
    destruct (get_context_returns (rag_retriever self) (rag_query d) 2000 w2)
      as (? & ? & Hrun). congruence. }
  apply bind_inv in H as [(? & Hm & _) | (search_context & w4 & _ & H)].
  { destruct (use_search d); [|discriminate].
    destruct (with_location_usable _ (search_query d) Hloc) as (q' & Hq').
    rewrite Hq' in Hm. unfold bind at 1 in Hm. unfold lift at 1 in Hm.
    unfold bind in Hm. rewrite perform_search_spec in Hm.
    match type of Hm with context [requests_post ?a ?b ?c ?d ?e ?f ?g] =>
      destruct (requests_post a b c d e f g) as [err|results] eqn:Hpost end.
    - destruct (Hreq _ _ _ _ _ _ _ Hpost) as [msg ->]. discriminate.
    - unfold history in Hm. cbn [log] in Hm.
      match type of Hm with context [_format_search_results _ ?h' _] =>
        destruct (Hform _ _ _ _ _ _ _ Hpost h') as [text Htext] end.
      unfold lift in Hm. rewrite Htext in Hm. discriminate. }
  apply bind_inv in H as [(? & Hm & _) | (context_text & w5 & _ & H)].
  { destruct (json_context self) as [|entry rest] eqn:Hctx; [discriminate|].
    rewrite json_dumps_spec in Hm.
    destruct (dump_encode P (log w4) (PyDict (entry :: rest))) eqn:Hd;
      [discriminate | by apply Hdump in Hd]. }
  unfold bind at 1 in H. unfold history in H.
  unfold bind at 1 in H. unfold emit, modify in H.
  unfold bind at 1 in H. unfold lift at 1 in H. cbn [log files ticks] in H.
  match type of H with context [generate_content ?m ?h ?p] =>
    destruct (generate_content m h p) as [err|reply] eqn:Hgen end.
  - injection H as <- _. by eexists _, _.
  - unfold bind in H. rewrite add_to_memory_spec in H. discriminate.
Qed.

(** X17.  When [json.dumps] accepts the context map, its location is
    absent, false or a string, the HTTP call fails with request exceptions
    only and answers with results that [_format_search_results] accepts,
    and the language model answers, then every input that is neither blank
    nor an exit keyword gets the model's answer as the reply, and the
    exchange is recorded with the stripped input, that reply and the time
    read on this turn.  A failed retrieval or request does not fail the
    turn. *)
Theorem chat_replies_when_model_answers (P : Platform) (self : System)
    (user_input : string) (w : World) :
  strip user_input <> "" ->
  ~ In (lower (strip user_input)) exit_commands ->
  (forall h, dump_encode P h (PyDict (json_context self)) <> None) ->
  location_usable (json_context self) = true ->
  (forall h url key q n loc x,
      requests_post P h url key q n loc = inl x -> exists msg, x = RequestException msg) ->
  (forall h url key q n loc results,
      requests_post P h url key q n loc = inr results ->
      forall h', exists text, _format_search_results P h' results = inr text) ->
  (forall h prompt, exists text,
      generate_content (real_estate_model self) h prompt = inr text) ->
  exists reply w' h prompt sources_used,
    chat P self user_input w
    = (inr (reply,
            set_memory self
              (last_n 20 (conversation_memory self
                          ++ [mkExchange (strip user_input) reply
                                (time_time P (ticks w)) sources_used]))),
       w')
    /\ generate_content (real_estate_model self) h prompt = inr reply
    /\ In (EvGenerate prompt) (log w').
Proof.
  intros Hne Hnot Hdump Hloc Hreq Hform Hmodel. unfold chat.
  rewrite (nonempty_true _ Hne). cbn [negb].
  destruct (existsb (String.eqb (lower (strip user_input))) exit_commands) eqn:Hexit.
  { exfalso. apply Hnot. apply existsb_exists in Hexit as (k & Hin & Heq).
    apply String.eqb_eq in Heq. by rewrite Heq. }
  unfold try_except.
  destruct (answer P self (strip user_input) w) as [[e|[reply self']] w1] eqn:Hans.
  { destruct (answer_raise_is_models _ _ _ _ _ _ Hdump Hloc Hreq Hform Hans)
      as (h & prompt & Hgen).
    destruct (Hmodel h prompt) as [text Htext]. congruence. }
  destruct (answer_outcome _ _ _ _ _ _ Hans) as (w5 & _ & Hcase).
  destruct Hcase as [(e & [=] & _) | [(prompt & e & [=] & _)
                    | (prompt & reply' & sources_used & [= -> ->] & Hgen & ->)]].
  eexists _, _, _, prompt, sources_used. split; [reflexivity|]. split; [exact Hgen|].
  cbn [log]. apply in_or_app. right. by left.
Qed.

Lemma chat_replies_when_model_answers_witness :
  exists reply w' h prompt sources_used,
    chat answering_platform (test_system echo_model miami_context) rates_query
      empty_world
    = (inr (reply,
            set_memory (test_system echo_model miami_context)
              (last_n 20 (conversation_memory (test_system echo_model miami_context)
                          ++ [mkExchange (strip rates_query) reply
                                (time_time answering_platform (ticks empty_world))
                                sources_used]))),
       w')
    /\ generate_content (real_estate_model (test_system echo_model miami_context))
         h prompt = inr reply
    /\ In (EvGenerate prompt) (log w').
Proof.
  apply (chat_replies_when_model_answers answering_platform
           (test_system echo_model miami_context) rates_query empty_world).
  - vm_compute. discriminate.
  - vm_compute. intros [H|[H|[H|[H|[]]]]]; discriminate.
  - intros h. vm_compute. discriminate.
  - reflexivity.
  - intros h url key q n loc x. discriminate.
  - intros h url key q n loc results [= <-] h'. eexists. vm_compute. reflexivity.
  - intros h prompt. by eexists.
Defined.

Lemma run_print {B} text (f : unit -> M World B) w :
  bind (print text) f w
  = f tt (mkWorld (files w) (ticks w) (log w ++ [EvPrint text])).
Proof. reflexivity. Qed.

Lemma with_location_unusable context search_query :
  location_usable context = false ->
  exists msg, with_location context search_query = inl (Exception msg).
Proof.
  unfold location_usable, with_location.
  destruct (dict_get context "location") as [v|]; [|discriminate].
  destruct (truthy v); [|discriminate]. cbn [negb orb].
  destruct v; try discriminate; by eexists.
Qed.

(** X18.  A context whose location is a true value that is not a string
    (a list of places, a number) breaks every turn that needs the web
    search: the test of the location against the query raises, the reply is
    the fixed apology, the language model is not asked, and the memory is
    not changed. *)
Theorem chat_unusable_location (P : Platform) (self : System) (user_input : string)
    (w : World) :
  strip user_input <> "" ->
  ~ In (lower (strip user_input)) exit_commands ->
  (matches_table dynamic_topics (lower (strip user_input))
   || (comparison_first (lower (strip user_input))
       && negb (matches_table stable_topics (lower (strip user_input))))
   || investment_first (lower (strip user_input))) = true ->
  location_usable (json_context self) = false ->
  exists w' events,
    chat P self user_input w = (inr (apology, self), w')
    /\ log w' = (log w ++ events)%list
    /\ filter is_generate events = [].
Proof.
  intros Hne Hnot Hsearch Hloc. unfold chat.
  rewrite (nonempty_true _ Hne). cbn [negb].
  destruct (existsb (String.eqb (lower (strip user_input))) exit_commands) eqn:Hexit.
  { exfalso. apply Hnot. apply existsb_exists in Hexit as (k & Hin & Heq).
    apply String.eqb_eq in Heq. by rewrite Heq. }
  unfold try_except, answer.
  destruct (analyze_query_flags (strip user_input) (Some (rag_retriever self)) w)
    as (d & w1 & Hrun & _ & Hq).
  destruct (table_decision_flags (strip user_input)) as [_ Tq]. cbv zeta in Tq.
  rewrite Tq, Hsearch in Hq.
  pose proof (respects_analyze_query _ _ _ _ _ Hrun) as Hacc.
  rewrite (run_bind _ _ _ _ _ Hrun), run_print.
  set (w2 := mkWorld (files w1) (ticks w1) (log w1 ++ [EvPrint _])).
  assert (Hacc2 : no_file_access w w2).
  { eapply no_file_access_trans; [exact Hacc|]. by eapply (respects_print _ w1). }
  assert (Hrag : exists text w3,
             (if use_rag d then get_context (rag_retriever self) (rag_query d) 2000
              else ret "") w2 = (inr text, w3) /\ no_file_access w w3).
  { destruct (use_rag d).
    - destruct (get_context_returns (rag_retriever self) (rag_query d) 2000 w2)
        as (text & w3 & Hctx).
      exists text, w3. split; [exact Hctx|].
      eapply no_file_access_trans; [exact Hacc2|]. by eapply respects_get_context.
    - by exists "", w2. }
  destruct Hrag as (text & w3 & Hrag & Hacc3).
  rewrite (run_bind _ _ _ _ _ Hrag), Hq.
  destruct (with_location_unusable _ (search_query d) Hloc) as (msg & ->).
  unfold bind at 1. unfold bind at 1. unfold lift at 1. rewrite run_print.
  apply no_file_access_events in Hacc3 as (_ & _ & events & Hl & _ & Hg).
  eexists _, (events ++ [EvPrint _])%list. split; [reflexivity|]. cbn [log].
  rewrite Hl, <- app_assoc. split; [reflexivity|]. by rewrite filter_app, Hg.
Qed.

Lemma chat_unusable_location_witness :
  exists w' events,
    chat test_platform (test_system echo_model list_location_context) rates_query
      empty_world
    = (inr (apology, test_system echo_model list_location_context), w')
    /\ log w' = (log empty_world ++ events)%list
    /\ filter is_generate events = [].
Proof.
  apply (chat_unusable_location test_platform
           (test_system echo_model list_location_context) rates_query empty_world).
  - vm_compute. discriminate.
  - vm_compute. intros [H|[H|[H|[H|[]]]]]; discriminate.
  - vm_compute. reflexivity.
  - reflexivity.
Defined.

(** ** Snapshots and the recent conversation *)

(** X19.  [_auto_save] raises nothing and can change one file only, the
    session file.  When that file can be opened it then holds the snapshot
    of the system as it is now, whatever it held before (a save replaces
    the previous one), or an interrupted dump when the encoder refuses
    the data; when it cannot be opened, it is left as it was. *)
Theorem auto_save_frame (P : Platform) (self : System) (w : World) :
  exists w',
    _auto_save P self w = (inr tt, w')
    /\ (forall path, path <> session_file self -> files w' !! path = files w !! path)
    /\ files w' !! session_file self
       = (if open_write P (log w) (session_file self) then
            Some (match dump_encode P (log w)
                          (save_data self (time_time P (ticks w))) with
                  | Some j => Written j
                  | None => Interrupted
                  end)
          else files w !! session_file self).
Proof.
  eexists. split; [apply auto_save_spec|]. cbn [files]. unfold saved_files.
  destruct (open_write P (log w) (session_file self)); [|done].
  destruct (dump_encode P (log w) (save_data self (time_time P (ticks w)))).
  - split; [intros path Hp; by rewrite lookup_insert_ne | by rewrite lookup_insert_eq].
  - split; [intros path Hp; by rewrite lookup_insert_ne | by rewrite lookup_insert_eq].
Qed.

Lemma last_n_last_n {A} (n : nat) (l : list A) : last_n n (last_n n l) = last_n n l.
Proof.
  pose proof (last_n_app_last_n n l []) as H. by rewrite !app_nil_r in H.
Qed.

(** X20.  [_get_recent_context] never raises, whatever the memory holds,
    does nothing to the world, and looks at the last three exchanges only:
    it gives the same text for the memory cut down to them. *)
Theorem get_recent_context_total (P : Platform) (self : System) (w : World) :
  exists text,
    _get_recent_context P self w = (inr text, w)
    /\ _get_recent_context P
         (set_memory self (last_n 3 (conversation_memory self))) w
       = (inr text, w).
Proof.
  set (v := PyList (map exchange_dict (last_n 3 (conversation_memory self)))).
  assert (Hn : json_native v = true) by apply exchanges_native.
  assert (Hf : fits (int_max_str_digits P) (json_depth P (log w)) v = true)
    by apply (exchanges_fit _ (S (json_room P (log w)))).
  destruct (json_decode_encode _ _ _ Hn Hf) as (j & Hj & _).
  exists (json_text P j). unfold _get_recent_context.
  cbn [conversation_memory set_memory]. rewrite last_n_last_n. fold v.
  assert (Hrun : json_dumps P v w = (inr (json_text P j), w)).
  { rewrite json_dumps_spec. unfold dump_encode. by rewrite Hj. }
  split; by repeat match goal with |- context [if ?b then _ else _] => destruct b end.
Qed.

Lemma substring_length (n : nat) (s : string) :
  String.length (String.substring 0 n s) = Nat.min n (String.length s).
Proof.
  revert s. induction n as [|n IH]; intros [|c s]; simpl; try done. by rewrite IH.
Qed.

Lemma recent_fold_length (l : list Exchange) (acc : string) :
  String.length
    (fold_left
       (fun acc exchange =>
          acc ++ nl ++ "User: " ++ user exchange ++ nl
          ++ "Assistant: " ++ take 200 (agent exchange) ++ "...")
       l acc)
  = String.length acc + list_sum (map exchange_cost l).
Proof.
  revert acc. induction l as [|e l IH]; intros acc; simpl; [lia|].
  rewrite IH. rewrite !string_length_app. unfold take. rewrite substring_length.
  unfold exchange_cost. simpl. lia.
Qed.

(** X21.  The recent conversation put in the prompt is made of the last two
    exchanges at most, and each adds its user text, at most 200 characters
    of its reply, and 22 characters of labels: long replies of earlier
    turns do not grow the prompt. *)
Theorem recent_conversation_length (memory : list Exchange) :
  String.length (recent_conversation memory)
  = list_sum (map exchange_cost (last_n 2 memory))
  /\ length (last_n 2 memory) <= 2
  /\ recent_conversation memory = recent_conversation (last_n 2 memory).
Proof.
  unfold recent_conversation. rewrite recent_fold_length, last_n_length, last_n_last_n.
  split; [done|]. split; [lia | done].
Qed.

(** ** The combiner with both contexts *)

Lemma contains_prefix (s t : string) : String.prefix s t = true -> contains s t = true.
Proof.
  intros H. destruct t as [|c t]; [by destruct s|].
  cbn [contains]. by rewrite H.
Qed.

(** X22.  When both contexts are non-empty, [combine_contexts] loses
    neither: for every topic hint the result contains the knowledge text and
    the search text, and it opens with the market title when the hint
    contains market or price, and with the general title otherwise. *)
Theorem combine_contexts_keeps_both (rag_context search_context query_type : string) :
  rag_context <> "" -> search_context <> "" ->
  contains rag_context (combine_contexts rag_context search_context query_type) = true
  /\ contains search_context (combine_contexts rag_context search_context query_type)
     = true
  /\ String.prefix (combined_title query_type)
       (combine_contexts rag_context search_context query_type) = true.
Proof.
  intros Hr Hs. unfold combine_contexts, combined_title.
  rewrite (nonempty_true _ Hr), (nonempty_true _ Hs). cbn [negb andb].
  destruct (contains "market" query_type || contains "price" query_type);
    [|destruct (contains "neighborhood" query_type)].
  all: split; [do 5 apply contains_append_r; apply contains_prefix, prefix_app|].
  all: split; [do 10 apply contains_append_r; apply contains_self | apply prefix_app].
Qed.

Lemma combine_contexts_keeps_both_witness :
  contains "A" (combine_contexts "A" "B" "brickell prices") = true
  /\ contains "B" (combine_contexts "A" "B" "brickell prices") = true
  /\ String.prefix (combined_title "brickell prices")
       (combine_contexts "A" "B" "brickell prices") = true.
Proof.
  apply (combine_contexts_keeps_both "A" "B" "brickell prices"); discriminate.
Defined.

(** ** The rationale and longer runs of the memory *)

Lemma nonempty_app_r (s t : string) : nonempty t = true -> nonempty (s ++ t) = true.
Proof. intros H. destruct s; [exact H | reflexivity]. Qed.

Lemma check_stable_reasoning text d :
  (use_rag d || use_search d = true -> nonempty (reasoning d) = true) ->
  use_rag (snd (check_stable text d)) || use_search (snd (check_stable text d)) = true ->
  nonempty (reasoning (snd (check_stable text d))) = true.
Proof.
  unfold check_stable. destruct (first_match stable_topics text) as [c|]; [|done].
  intros _ _. cbn [snd add_reasoning reasoning]. apply nonempty_app_r. reflexivity.
Qed.

Lemma check_dynamic_reasoning user_input text d :
  (use_rag d || use_search d = true -> nonempty (reasoning d) = true) ->
  use_rag (snd (check_dynamic user_input text d))
  || use_search (snd (check_dynamic user_input text d)) = true ->
  nonempty (reasoning (snd (check_dynamic user_input text d))) = true.
Proof.
  unfold check_dynamic. destruct (first_match dynamic_topics text) as [c|]; [|done].
  intros _ _. cbn [snd].
  assert (H : forall q, nonempty (reasoning
                (add_reasoning ("Search: " ++ c ++ " requires current data. ") q)) = true).
  { intros q. cbn [add_reasoning reasoning]. apply nonempty_app_r. reflexivity. }
  destruct (String.eqb c "market"); [apply (H (set_use_search d))|].
  destruct (String.eqb c "availability"); apply (H (set_use_search d)).
Qed.

Lemma check_hybrid_reasoning text sm dm d :
  (use_rag d || use_search d = true -> nonempty (reasoning d) = true) ->
  use_rag (check_hybrid text sm dm d) || use_search (check_hybrid text sm dm d) = true ->
  nonempty (reasoning (check_hybrid text sm dm d)) = true.
Proof.
  unfold check_hybrid. rewrite first_match_hybrid.
  destruct (any_in neighborhoods text), dm, sm,
    (any_in comparison_keywords text), (any_in investment_keywords text),
    (any_in comprehensive_keywords text); cbn; intros Hd H;
    try (apply nonempty_app_r; reflexivity); by apply Hd.
Qed.

(** X23.  Every decision carries a rationale: whatever the input and the
    probe, the reasoning [analyze_query] returns is not empty. *)
Theorem analyze_query_reasoning (user_input : string)
    (probe : option RAGRetriever) (w : World) :
  exists d w',
    analyze_query user_input probe w = (inr d, w') /\ reasoning d <> "".
Proof.
  assert (Ht : use_rag (table_decision user_input)
               || use_search (table_decision user_input) = true ->
               nonempty (reasoning (table_decision user_input)) = true).
  { unfold table_decision.
    set (d0 := mkDecision false false user_input user_input "").
    pose proof (check_stable_reasoning (lower user_input) d0) as H1.
    destruct (check_stable (lower user_input) d0) as [sm d1]; cbn [fst snd] in *.
    pose proof (check_dynamic_reasoning user_input (lower user_input) d1) as H2.
    destruct (check_dynamic user_input (lower user_input) d1) as [dm d2];
      cbn [fst snd] in *.
    apply check_hybrid_reasoning. apply H2. apply H1. discriminate. }
  unfold analyze_query, default_decision.
  destruct (use_rag (table_decision user_input)) eqn:Hr;
    [|destruct (use_search (table_decision user_input)) eqn:Hs]; cbn [negb andb].
  1,2: exists (table_decision user_input), w; split; [done|];
       intros Hempty; rewrite Hempty in Ht; by specialize (Ht eq_refl).
  destruct probe as [retriever|]; [|by eexists _, _].
  destruct (retrieve_returns retriever user_input 1 w) as (hits & w' & Hret).
  rewrite (run_bind _ _ _ _ _ Hret).
  destruct hits as [|top hits]; [by eexists _, _|].
  destruct (PrimFloat.ltb threshold (relevance_score top)); by eexists _, _.
Qed.

(** X24.  Any number of appends in sequence, from any memory of at most 20
    entries, leave the last 20 entries of the old memory followed by the
    new exchanges, in order; the clock is read once per append and nothing
    else changes in the world. *)
Theorem memory_after_appends (P : Platform) (self : System)
    (messages : list (string * string * string)) (w : World) :
  length (conversation_memory self) <= 20 ->
  exists self',
    add_all P self messages w
    = (inr self', mkWorld (files w) (ticks w + length messages) (log w))
    /\ conversation_memory self'
       = last_n 20 (conversation_memory self ++ recorded P (ticks w) messages)
    /\ length (conversation_memory self')
       = Nat.min 20 (length (conversation_memory self) + length messages).
Proof.
  revert self w. induction messages as [|[[u a] s] messages IH]; intros self w Hlen.
  - exists self. cbn [add_all recorded length].
    rewrite !Nat.add_0_r, app_nil_r, last_n_short by done.
    destruct w. split; [done|]. split; [done|]. lia.
  - cbn [add_all recorded length].
    rewrite (run_bind _ _ _ _ _ (add_to_memory_spec P self u a s w)).
    set (self1 := set_memory self _). set (w1 := mkWorld _ _ _).
    destruct (IH self1 w1) as (self' & Hrun & Hmem & Hlen').
    { subst self1. cbn [conversation_memory set_memory]. rewrite last_n_length. lia. }
    exists self'. split; [|split].
    + rewrite Hrun. subst w1. cbn [files ticks log]. do 2 f_equal. lia.
    + rewrite Hmem. subst self1 w1. cbn [ticks conversation_memory set_memory].
      by rewrite last_n_app_last_n, <- app_assoc.
    + rewrite Hlen'. subst self1. cbn [conversation_memory set_memory].
      rewrite last_n_length, length_app. cbn [length]. lia.
Qed.

Lemma memory_after_appends_witness :
  exists self',
    add_all test_platform (test_system echo_model []) messages_25 empty_world
    = (inr self',
       mkWorld (files empty_world) (ticks empty_world + length messages_25)
         (log empty_world))
    /\ conversation_memory self'
       = last_n 20 (conversation_memory (test_system echo_model [])
                    ++ recorded test_platform (ticks empty_world) messages_25)
    /\ length (conversation_memory self')
       = Nat.min 20 (length (conversation_memory (test_system echo_model []))
                     + length messages_25).
Proof.
  apply (memory_after_appends test_platform (test_system echo_model [])
           messages_25 empty_world).
  simpl. lia.
Defined.

(** ** Loading documents *)

Lemma load_file_returns D root file h :
  exists docs h',
    load_file D root file h = (inr docs, h')
    /\ forall doc, In doc docs ->
         loader_for file <> None
         /\ Doc.metadata doc !! "source" = Some file
         /\ Doc.metadata doc !! "category" = Some (path_basename D root).
Proof.
  unfold load_file. destruct (loader_for file) as [loader|] eqn:Hl.
  2:{ exists [], h. split; [reflexivity|]. intros doc []. }
  unfold try_except, bind, get, doc_emit, modify, lift, ret.
  destruct (loader_load D h loader (path_join D root file)) as [e|docs].
  - eexists [], _. split; [reflexivity|]. intros doc [].
  - eexists _, _. split; [reflexivity|]. intros doc Hin.
    apply in_map_iff in Hin as (doc0 & <- & _). split; [done|].
    unfold tag_document. cbn [Doc.metadata].
    split; [by rewrite lookup_insert_ne, lookup_insert_eq | by rewrite lookup_insert_eq].
Qed.

Lemma load_files_returns D root files h :
  exists docs h',
    load_files D root files h = (inr docs, h')
    /\ forall doc, In doc docs ->
         exists file,
           In file files /\ loader_for file <> None
           /\ Doc.metadata doc !! "source" = Some file
           /\ Doc.metadata doc !! "category" = Some (path_basename D root).
Proof.
  revert h. induction files as [|file files IH]; intros h.
  - exists [], h. split; [reflexivity|]. intros doc [].
  - destruct (load_file_returns D root file h) as (docs & h1 & Hrun & Hdocs).
    destruct (IH h1) as (more & h2 & Hrun' & Hmore).
    exists (docs ++ more)%list, h2. cbn [load_files].
    rewrite (run_bind _ _ _ _ _ Hrun), (run_bind _ _ _ _ _ Hrun').
    split; [reflexivity|]. intros doc Hin. apply in_app_or in Hin as [Hin|Hin].
    + exists file. split; [by left|]. by apply Hdocs.
    + destruct (Hmore doc Hin) as (f & Hf & Hrest). exists f. split; [by right | done].
Qed.

Lemma load_walk_returns D walk h :
  exists docs h',
    load_walk D walk h = (inr docs, h')
    /\ forall doc, In doc docs -> tagged_from D walk doc.
Proof.
  revert h. induction walk as [|[root files] walk IH]; intros h.
  - exists [], h. split; [reflexivity|]. intros doc [].
  - destruct (load_files_returns D root files h) as (docs & h1 & Hrun & Hdocs).
    destruct (IH h1) as (more & h2 & Hrun' & Hmore).
    exists (docs ++ more)%list, h2. cbn [load_walk].
    rewrite (run_bind _ _ _ _ _ Hrun), (run_bind _ _ _ _ _ Hrun').
    split; [reflexivity|]. intros doc Hin. apply in_app_or in Hin as [Hin|Hin].
    + destruct (Hdocs doc Hin) as (file & Hf & Hrest).
      exists root, files, file. split; [by left | done].
    + destruct (Hmore doc Hin) as (r & fs & f & Hw & Hrest).
      exists r, fs, f. split; [by right | done].
Qed.

Lemma load_documents_eq D directory_path h :
  load_documents D directory_path h
  = if path_exists D h directory_path then
      load_walk D (os_walk D h directory_path) h
    else
      let h1 := (h ++ [DocPrint ("Directory " ++ directory_path
                                 ++ " not found. Creating sample documents...")])%list in
      let h2 := (h1 ++ [DocCreateSamples directory_path])%list in
      match create_sample_documents D h1 directory_path with
      | inl e => (inl e, h2)
      | inr _ => load_walk D (os_walk D h2 directory_path) h2
      end.
Proof.
  unfold load_documents, bind, get, doc_emit, modify, lift, ret.
  destruct (path_exists D h directory_path); cbn [negb]; [reflexivity|].
  by destruct (create_sample_documents D _ directory_path) as [e|[]].
Qed.

(** X25.  When the directory exists, [load_documents] raises nothing,
    whatever the loaders do (a file that cannot be loaded is reported and
    passed over), and every document it returns comes from a file of the
    walk whose name ends in .pdf, .txt or .docx, and carries that file's
    name as its source and the name of the file's folder as its category.
    Without the directory it first creates the sample documents, and an
    exception of that step is the one thing it lets through. *)
Theorem load_documents_tags (D : Disk) (directory_path : string) (h : list DocEvent) :
  (path_exists D h directory_path = true ->
   exists docs h',
     load_documents D directory_path h = (inr docs, h')
     /\ forall doc, In doc docs -> tagged_from D (os_walk D h directory_path) doc)
  /\ (path_exists D h directory_path = false ->
      let h1 := (h ++ [DocPrint ("Directory " ++ directory_path
                                 ++ " not found. Creating sample documents...")])%list in
      let h2 := (h1 ++ [DocCreateSamples directory_path])%list in
      match create_sample_documents D h1 directory_path with
      | inl e => load_documents D directory_path h = (inl e, h2)
      | inr _ =>
          exists docs h',
            load_documents D directory_path h = (inr docs, h')
            /\ forall doc, In doc docs ->
                 tagged_from D (os_walk D h2 directory_path) doc
      end).
Proof.
  rewrite load_documents_eq. split; intros Hex; rewrite Hex.
  - apply load_walk_returns.
  - cbv zeta. destruct (create_sample_documents D _ directory_path) as [e|[]];
      [reflexivity | apply load_walk_returns].
Qed.

Lemma load_documents_tags_witness :
  exists docs h',
    load_documents sample_disk "kb" [] = (inr docs, h')
    /\ forall doc, In doc docs -> tagged_from sample_disk (os_walk sample_disk [] "kb") doc.
Proof.
  apply (proj1 (load_documents_tags sample_disk "kb" [])). reflexivity.
Defined.
